(** * Gift finder: link rewriting, prompt assembly and result history

    A shallow embedding of the logic of [src/App.jsx]: the retailer link
    rewriter [processRetailerLink], the two prompt builders inside
    [fetchGiftSuggestions] and [generateCardMessage], the fetch
    orchestration and the back/forward history.

    JavaScript strings are sequences of UTF-16 code units, exceptions are
    explicit ([completion]), and what the program takes from its host
    (the URL parser, the text of engine errors) is an interface, [Host]. *)

From Stdlib Require Import List NArith ZArith Bool String Ascii Lia.
From Stdlib Require Import DecimalString.
Import ListNotations.

Set Warnings "-register-all".

(** ** JavaScript strings *)

Module JS.

Definition code_unit := N.
Definition jsstring := list code_unit.

(** An ASCII literal of the source, as code units. *)
Definition lit (s : string) : jsstring :=
  map N_of_ascii (list_ascii_of_string s).

Definition is_empty (s : jsstring) : bool :=
  match s with [] => true | _ :: _ => false end.

(** A string in a condition: [if (s)] holds when [s] is not empty. *)
Definition nonempty (s : jsstring) : bool := negb (is_empty s).

Fixpoint jsstring_eqb (s t : jsstring) : bool :=
  match s, t with
  | [], [] => true
  | c :: s', d :: t' => (c =? d)%N && jsstring_eqb s' t'
  | _, _ => false
  end.

(** [String.prototype.trim] strips WhiteSpace and LineTerminator code
    points: TAB, LF, VT, FF, CR, SP, NBSP, the Zs category, LS, PS and
    ZWNBSP. *)
Definition is_trim_space (c : code_unit) : bool :=
  ((9 <=? c) && (c <=? 13) || (c =? 32) || (c =? 0xA0) || (c =? 0x1680)
   || (0x2000 <=? c) && (c <=? 0x200A) || (c =? 0x2028) || (c =? 0x2029)
   || (c =? 0x202F) || (c =? 0x205F) || (c =? 0x3000) || (c =? 0xFEFF))%N.

Fixpoint trimStart (s : jsstring) : jsstring :=
  match s with
  | [] => []
  | c :: rest => if is_trim_space c then trimStart rest else s
  end.

Definition trimEnd (s : jsstring) : jsstring := rev (trimStart (rev s)).

Definition trim (s : jsstring) : jsstring := trimEnd (trimStart s).

(** [s.startsWith(p)] and [s.includes(p)]. *)
Fixpoint startsWith (s p : jsstring) {struct p} : bool :=
  match p, s with
  | [], _ => true
  | _ :: _, [] => false
  | c :: p', d :: s' => (c =? d)%N && startsWith s' p'
  end.

Fixpoint includes (s p : jsstring) : bool :=
  startsWith s p ||
  match s with
  | [] => false
  | _ :: s' => includes s' p
  end.

(** [parts.join(sep)] on an array of strings. *)
Fixpoint join (sep : jsstring) (parts : list jsstring) : jsstring :=
  match parts with
  | [] => []
  | [p] => p
  | p :: rest => p ++ sep ++ join sep rest
  end.

(** ** Exceptions *)

Inductive js_error :=
| URIError                       (* encodeURIComponent met a lone surrogate *)
| TypeError                      (* property read on null, failed ToPrimitive *)
| Rejection (message : jsstring). (* what a rejected callGeminiApi carries *)

Inductive completion (A : Type) :=
| Normal (a : A)
| Throw (e : js_error).

Arguments Normal {A} a.
Arguments Throw {A} e.

Definition bind {A B} (m : completion A) (k : A -> completion B) : completion B :=
  match m with
  | Normal a => k a
  | Throw e => Throw e
  end.

Notation "x <- m ;; k" := (bind m (fun x => k))
  (at level 61, m at next level, right associativity).

Fixpoint mapM {A B} (f : A -> completion B) (l : list A) : completion (list B) :=
  match l with
  | [] => Normal []
  | a :: rest => b <- f a ;; bs <- mapM f rest ;; Normal (b :: bs)
  end.

(** ** encodeURIComponent

    The Encode operation of ECMAScript with the unescaped set of
    [encodeURIComponent]: ASCII letters, digits and [-_.!~*'()] are kept,
    every other code point is written as the %XX of its UTF-8 octets, and
    an unpaired surrogate throws a URIError. *)

Open Scope N_scope.

Definition is_uri_unescaped (c : code_unit) : bool :=
  (65 <=? c) && (c <=? 90) || (97 <=? c) && (c <=? 122)
  || (48 <=? c) && (c <=? 57)
  || existsb (N.eqb c) (lit "-_.!~*'()").

Definition is_leading_surrogate (c : code_unit) : bool :=
  (0xD800 <=? c) && (c <=? 0xDBFF).

Definition is_trailing_surrogate (c : code_unit) : bool :=
  (0xDC00 <=? c) && (c <=? 0xDFFF).

Definition surrogate_pair_code_point (lead trail : code_unit) : N :=
  (lead - 0xD800) * 0x400 + (trail - 0xDC00) + 0x10000.

Definition utf8_octets (cp : N) : list N :=
  if cp <? 0x80 then [cp]
  else if cp <? 0x800 then [0xC0 + cp / 64; 0x80 + cp mod 64]
  else if cp <? 0x10000 then
    [0xE0 + cp / 4096; 0x80 + (cp / 64) mod 64; 0x80 + cp mod 64]
  else
    [0xF0 + cp / 262144; 0x80 + (cp / 4096) mod 64;
     0x80 + (cp / 64) mod 64; 0x80 + cp mod 64].

Definition hex_digit (n : N) : code_unit :=
  if n <? 10 then 48 + n else 55 + n.

Definition percent_octet (b : N) : jsstring :=
  [37; hex_digit (b / 16); hex_digit (b mod 16)].

Definition percent_encode (cp : N) : jsstring :=
  flat_map percent_octet (utf8_octets cp).

Fixpoint Encode (s : jsstring) : completion jsstring :=
  match s with
  | [] => Normal []
  | c :: rest =>
      if is_uri_unescaped c then
        r <- Encode rest ;; Normal (c :: r)
      else if is_trailing_surrogate c then Throw URIError
      else if is_leading_surrogate c then
        match rest with
        | d :: rest' =>
            if is_trailing_surrogate d then
              r <- Encode rest' ;;
              Normal (percent_encode (surrogate_pair_code_point c d) ++ r)
            else Throw URIError
        | [] => Throw URIError
        end
      else
        r <- Encode rest ;; Normal (percent_encode c ++ r)
  end.

Close Scope N_scope.

(** ** Values

    What [JSON.parse] can return, and [undefined]. An object is its list
    of own properties; a property's value is its first binding. A number
    is kept as what this program can observe of it: whether it is falsy
    (a zero or NaN) and how it prints. *)

Record number := {
  number_is_falsy : bool;
  number_text : jsstring
}.

Inductive value :=
| VUndefined
| VNull
| VBool (b : bool)
| VNumber (n : number)
| VString (s : jsstring)
| VArray (elems : list value)
| VObject (props : list (jsstring * value)).

(** What the program takes from its host: the [hostname] of
    [new URL(s)] ([None] when the constructor throws), and the [message]
    of the errors the engine itself throws. A URL given without a base
    parses only if it has a scheme, which ends in a colon. *)
Class Host := {
  url_hostname : jsstring -> option jsstring;
  url_hostname_scheme :
    forall s h, url_hostname s = Some h -> In 58%N s;
  engine_message : js_error -> jsstring
}.

Definition message {host : Host} (e : js_error) : jsstring :=
  match e with
  | Rejection m => m
  | _ => engine_message e
  end.

(** ToBoolean. *)
Definition truthy (v : value) : bool :=
  match v with
  | VUndefined | VNull => false
  | VBool b => b
  | VNumber n => negb (number_is_falsy n)
  | VString s => nonempty s
  | VArray _ | VObject _ => true
  end.

Definition is_nullish (v : value) : bool :=
  match v with
  | VUndefined | VNull => true
  | _ => false
  end.

Fixpoint lookup (key : jsstring) (props : list (jsstring * value)) : option value :=
  match props with
  | [] => None
  | (k, v) :: rest => if jsstring_eqb k key then Some v else lookup key rest
  end.

(** [v.key] for a key that is neither an index, [length], nor a property
    of a built-in prototype (here [purchaseLink] and [name]): the own
    property of an object, [undefined] on any other value, and a
    TypeError on [null] and [undefined]. *)
Definition field (v : value) (key : jsstring) : value :=
  match v with
  | VObject props =>
      match lookup key props with
      | Some w => w
      | None => VUndefined
      end
  | _ => VUndefined
  end.

Definition Get (v : value) (key : jsstring) : completion value :=
  if is_nullish v then Throw TypeError else Normal (field v key).

(** [{ ...gift, key: w }]: the own enumerable properties of [gift] (the
    indices of an array or of a string, nothing for the other
    primitives), then [key] set to [w]. *)
Definition index_key (i : nat) : jsstring :=
  lit (NilZero.string_of_uint (Nat.to_uint i)).

Definition indexed (elems : list value) : list (jsstring * value) :=
  combine (map index_key (seq 0 (List.length elems))) elems.

Definition own_enumerable (v : value) : list (jsstring * value) :=
  match v with
  | VObject props => props
  | VArray elems => indexed elems
  | VString s => indexed (map (fun c => VString [c]) s)
  | _ => []
  end.

Fixpoint set_prop (key : jsstring) (w : value) (props : list (jsstring * value))
  : list (jsstring * value) :=
  match props with
  | [] => [(key, w)]
  | (k, v) :: rest =>
      if jsstring_eqb k key then (k, w) :: rest
      else (k, v) :: set_prop key w rest
  end.

(** ToString on these values. An array prints as its [join(",")], where
    [null] and [undefined] elements print as nothing. A plain object
    prints as [[object Object]] through [Object.prototype.toString],
    unless an own [toString] property (never callable here) shadows it:
    then [valueOf] cannot give a primitive either and ToPrimitive throws. *)
Fixpoint ToString (v : value) : completion jsstring :=
  match v with
  | VUndefined => Normal (lit "undefined")
  | VNull => Normal (lit "null")
  | VBool true => Normal (lit "true")
  | VBool false => Normal (lit "false")
  | VNumber n => Normal (number_text n)
  | VString s => Normal s
  | VArray elems =>
      (fix join_elems (l : list value) : completion jsstring :=
         match l with
         | [] => Normal []
         | e :: rest =>
             s <- (if is_nullish e then Normal [] else ToString e) ;;
             match rest with
             | [] => Normal s
             | _ :: _ => r <- join_elems rest ;; Normal (s ++ lit "," ++ r)
             end
         end) elems
  | VObject props =>
      match lookup (lit "toString") props with
      | Some _ => Throw TypeError
      | None => Normal (lit "[object Object]")
      end
  end.

Definition encodeURIComponent (v : value) : completion jsstring :=
  s <- ToString v ;; Encode s.

End JS.

(** ** The link rewriter *)

Module LinkRewriter.
Import JS.

Definition AMAZON_ASSOCIATE_TAG : jsstring := lit "realstory-20".

Definition amazonDomains : list jsstring :=
  map lit
    ["amazon.com"; "amazon.co.uk"; "amazon.ca"; "amazon.de";
     "amazon.fr"; "amazon.it"; "amazon.es"; "amazon.co.jp";
     "amazon.com.au"; "amazon.in"]%string.

Definition sentinel : jsstring := lit "#".

(** Substring containment, as [includes] decides it. *)
Definition contains (s p : jsstring) : Prop :=
  exists pre post, s = pre ++ p ++ post.

Section Rewriter.
Context {host : Host}.

(** [encodeURIComponent(giftName || '')]. *)
Definition searchTermOf (giftName : value) : completion jsstring :=
  encodeURIComponent (if truthy giftName then giftName else VString []).

(** The body of the [try]: only [new URL] can throw there, and the
    [catch] turns that into the sentinel. *)
Definition dispatch (originalLink searchTerm : jsstring) : jsstring :=
  match url_hostname originalLink with
  | None => sentinel
  | Some hostname =>
      if existsb (fun domain => includes hostname domain) amazonDomains then
        let searchBaseUrl := lit "https://" ++ hostname ++ lit "/s?k=" in
        searchBaseUrl ++ searchTerm ++ lit "&tag=" ++ AMAZON_ASSOCIATE_TAG
      else if includes hostname (lit "etsy.com") then
        lit "https://www.etsy.com/search?q=" ++ searchTerm
      else if includes hostname (lit "target.com") then
        lit "https://www.target.com/s?searchTerm=" ++ searchTerm
      else if includes hostname (lit "bestbuy.com") then
        lit "https://www.bestbuy.com/site/searchpage.jsp?st=" ++ searchTerm
      else originalLink
  end.

Definition processRetailerLink (originalLink giftName : value)
  : completion jsstring :=
  match originalLink with
  | VString link =>
      if is_empty (trim link) then Normal sentinel
      else
        searchTerm <- searchTermOf giftName ;;
        Normal (dispatch link searchTerm)
  | _ => Normal sentinel
  end.

End Rewriter.

End LinkRewriter.

(** ** The prompt builders *)

Module Prompt.
Import JS.

(** The eight form fields; each is a string, empty until filled in. *)
Record Criteria := {
  interests : jsstring;
  notableEvents : jsstring;
  minPrice : jsstring;
  maxPrice : jsstring;
  age : jsstring;
  gender : jsstring;
  relationship : jsstring;
  occasion : jsstring
}.

(** [if (cond) parts.push(clause)]. *)
Definition push_if (cond : bool) (clause : jsstring) (parts : list jsstring)
  : list jsstring :=
  if cond then parts ++ [clause] else parts.

Definition priceRangeString (c : Criteria) : jsstring :=
  if nonempty (minPrice c) && nonempty (maxPrice c) then
    lit "between $" ++ minPrice c ++ lit " and $" ++ maxPrice c
  else if nonempty (minPrice c) then lit "above $" ++ minPrice c
  else if nonempty (maxPrice c) then lit "up to $" ++ maxPrice c
  else [].

Definition gift_intro : jsstring := lit "I need a gift suggestion for someone.".

Definition promptParts (c : Criteria) : list jsstring :=
  let parts := [gift_intro] in
  let parts := push_if (nonempty (occasion c))
    (lit "The occasion is " ++ occasion c ++ lit ".") parts in
  let parts := push_if (nonempty (relationship c))
    (lit "They are my " ++ relationship c ++ lit ".") parts in
  let parts := push_if (nonempty (age c))
    (lit "They are " ++ age c ++ lit " years old.") parts in
  let parts := push_if (nonempty (gender c))
    (lit "Their gender is " ++ gender c ++ lit ".") parts in
  let parts := push_if (nonempty (notableEvents c))
    (lit "Notable events in their life include " ++ notableEvents c ++ lit ".")
    parts in
  let parts := push_if (nonempty (interests c))
    (lit "They are interested in " ++ interests c ++ lit ".") parts in
  let parts := push_if (nonempty (priceRangeString c))
    (lit "The price range should be " ++ priceRangeString c ++ lit ".") parts in
  parts.

Definition gift_request : jsstring :=
  lit " Please provide a list of at least 5 varied and diverse gift ideas. For each idea, include its name, a brief description, and a direct purchase link. Prioritize direct product links from major retailers like Amazon, Etsy, Target, Best Buy, or official brand websites. If a direct product link is not feasible, provide a relevant search results page link on a major retailer. Respond in JSON format as an. array of objects, each with 'name', 'description', and 'purchaseLink' fields.".

Definition mainPrompt (c : Criteria) : jsstring :=
  join (lit " ") (promptParts c) ++ gift_request.

Definition message_intro : jsstring :=
  lit "Write a heartfelt and creative gift card message or a short poem.".

Definition messagePromptParts (c : Criteria) : list jsstring :=
  let parts := [message_intro] in
  let parts := push_if (nonempty (occasion c))
    (lit "The occasion is " ++ occasion c ++ lit ".") parts in
  let parts := push_if (nonempty (relationship c))
    (lit "The recipient is my " ++ relationship c ++ lit ".") parts in
  let parts := push_if (nonempty (age c))
    (lit "They are " ++ age c ++ lit " years old.") parts in
  let parts := push_if (nonempty (gender c))
    (lit "Their gender is " ++ gender c ++ lit ".") parts in
  let parts := push_if (nonempty (interests c))
    (lit "They are interested in " ++ interests c ++ lit ".") parts in
  let parts := push_if (nonempty (notableEvents c))
    (lit "They have been busy with " ++ notableEvents c ++ lit ".") parts in
  parts.

Definition message_request : jsstring :=
  lit " Make sure the message is suitable for the context and tone. Keep it concise, around 50-100 words.".

Definition fullMessagePrompt (c : Criteria) : jsstring :=
  join (lit " ") (messagePromptParts c) ++ message_request.

(** *** The rule as the specification words it

    One clause per present field, taken in a fixed order of the fields;
    the two price fields count as one field, the price range. *)

Inductive field_name :=
| Occasion | Relationship | Age | Gender | NotableEvents | Interests
| PriceRange.

Definition present (c : Criteria) (f : field_name) : bool :=
  match f with
  | Occasion => nonempty (occasion c)
  | Relationship => nonempty (relationship c)
  | Age => nonempty (age c)
  | Gender => nonempty (gender c)
  | NotableEvents => nonempty (notableEvents c)
  | Interests => nonempty (interests c)
  | PriceRange => nonempty (minPrice c) || nonempty (maxPrice c)
  end.

Definition spec_order : list field_name :=
  [Occasion; Relationship; Age; Gender; NotableEvents; Interests; PriceRange].

Definition message_order : list field_name :=
  [Occasion; Relationship; Age; Gender; Interests; NotableEvents].

Definition clauses_in_order (clause : Criteria -> field_name -> jsstring)
  (order : list field_name) (c : Criteria) : list jsstring :=
  map (clause c) (filter (present c) order).

(** The three price templates of the specification. *)
Definition spec_price_phrase (c : Criteria) : option jsstring :=
  match nonempty (minPrice c), nonempty (maxPrice c) with
  | true, true =>
      Some (lit "between $" ++ minPrice c ++ lit " and $" ++ maxPrice c)
  | true, false => Some (lit "above $" ++ minPrice c)
  | false, true => Some (lit "up to $" ++ maxPrice c)
  | false, false => None
  end.

Definition gift_clause (c : Criteria) (f : field_name) : jsstring :=
  match f with
  | Occasion => lit "The occasion is " ++ occasion c ++ lit "."
  | Relationship => lit "They are my " ++ relationship c ++ lit "."
  | Age => lit "They are " ++ age c ++ lit " years old."
  | Gender => lit "Their gender is " ++ gender c ++ lit "."
  | NotableEvents =>
      lit "Notable events in their life include " ++ notableEvents c ++ lit "."
  | Interests => lit "They are interested in " ++ interests c ++ lit "."
  | PriceRange =>
      lit "The price range should be "
      ++ match spec_price_phrase c with Some p => p | None => [] end
      ++ lit "."
  end.

Definition message_clause (c : Criteria) (f : field_name) : jsstring :=
  match f with
  | Occasion => lit "The occasion is " ++ occasion c ++ lit "."
  | Relationship => lit "The recipient is my " ++ relationship c ++ lit "."
  | Age => lit "They are " ++ age c ++ lit " years old."
  | Gender => lit "Their gender is " ++ gender c ++ lit "."
  | Interests => lit "They are interested in " ++ interests c ++ lit "."
  | NotableEvents => lit "They have been busy with " ++ notableEvents c ++ lit "."
  | PriceRange => []
  end.

(** The criteria with both price fields emptied. *)
Definition without_price (c : Criteria) : Criteria :=
  {| interests := interests c; notableEvents := notableEvents c;
     minPrice := []; maxPrice := [];
     age := age c; gender := gender c;
     relationship := relationship c; occasion := occasion c |}.

End Prompt.

(** ** Application state, fetch orchestration and history *)

Module App.
Import JS LinkRewriter Prompt.

(** [array.slice(0, e)] and [array[i]] for an integer [i]; reading outside
    the array gives [undefined], here [None]. *)
Definition slice0 {A} (l : list A) (e : Z) : list A :=
  let len := Z.of_nat (List.length l) in
  let final := if (e <? 0)%Z then Z.max (len + e) 0 else Z.min e len in
  firstn (Z.to_nat final) l.

Definition at_index {A} (l : list A) (i : Z) : option A :=
  if (i <? 0)%Z then None else nth_error l (Z.to_nat i).

(** The state hooks of [App] that the handlers below read and write.
    [giftIdeas] is [None] when it was set to [undefined]. *)
Record AppState := {
  giftIdeas : option (list value);
  isLoading : bool;
  error : option jsstring;
  cardMessage : value;
  isGeneratingMessage : bool;
  giftIdeasHistory : list (list value);
  historyIndex : Z
}.

Definition initial : AppState :=
  {| giftIdeas := Some []; isLoading := false; error := None;
     cardMessage := VString []; isGeneratingMessage := false;
     giftIdeasHistory := []; historyIndex := (-1)%Z |}.

Definition setGiftIdeas (x : option (list value)) (s : AppState) : AppState :=
  {| giftIdeas := x; isLoading := isLoading s; error := error s;
     cardMessage := cardMessage s; isGeneratingMessage := isGeneratingMessage s;
     giftIdeasHistory := giftIdeasHistory s; historyIndex := historyIndex s |}.

Definition setIsLoading (x : bool) (s : AppState) : AppState :=
  {| giftIdeas := giftIdeas s; isLoading := x; error := error s;
     cardMessage := cardMessage s; isGeneratingMessage := isGeneratingMessage s;
     giftIdeasHistory := giftIdeasHistory s; historyIndex := historyIndex s |}.

Definition setError (x : option jsstring) (s : AppState) : AppState :=
  {| giftIdeas := giftIdeas s; isLoading := isLoading s; error := x;
     cardMessage := cardMessage s; isGeneratingMessage := isGeneratingMessage s;
     giftIdeasHistory := giftIdeasHistory s; historyIndex := historyIndex s |}.

Definition setCardMessage (x : value) (s : AppState) : AppState :=
  {| giftIdeas := giftIdeas s; isLoading := isLoading s; error := error s;
     cardMessage := x; isGeneratingMessage := isGeneratingMessage s;
     giftIdeasHistory := giftIdeasHistory s; historyIndex := historyIndex s |}.

Definition setIsGeneratingMessage (x : bool) (s : AppState) : AppState :=
  {| giftIdeas := giftIdeas s; isLoading := isLoading s; error := error s;
     cardMessage := cardMessage s; isGeneratingMessage := x;
     giftIdeasHistory := giftIdeasHistory s; historyIndex := historyIndex s |}.

(** The two setters that take an updater function of the previous value. *)
Definition setGiftIdeasHistory (f : list (list value) -> list (list value))
  (s : AppState) : AppState :=
  {| giftIdeas := giftIdeas s; isLoading := isLoading s; error := error s;
     cardMessage := cardMessage s; isGeneratingMessage := isGeneratingMessage s;
     giftIdeasHistory := f (giftIdeasHistory s); historyIndex := historyIndex s |}.

Definition setHistoryIndex (f : Z -> Z) (s : AppState) : AppState :=
  {| giftIdeas := giftIdeas s; isLoading := isLoading s; error := error s;
     cardMessage := cardMessage s; isGeneratingMessage := isGeneratingMessage s;
     giftIdeasHistory := giftIdeasHistory s; historyIndex := f (historyIndex s) |}.

(** What awaiting [callGeminiApi] gives: the parsed payload, or a rejection
    with the [message] of its error. *)
Inductive api_result :=
| Resolved (payload : value)
| Rejected (message : jsstring).

Definition await (r : api_result) : completion value :=
  match r with
  | Resolved payload => Normal payload
  | Rejected m => Throw (Rejection m)
  end.

(** The history push of [fetchGiftSuggestions]: the three state updates
    after a successful fetch. [closureIndex] is the [historyIndex] the
    callback closed over; the updaters see the current state. *)
Definition push (closureIndex : Z) (entry : list value) (s : AppState)
  : AppState :=
  let s := setGiftIdeas (Some entry) s in
  let s := setGiftIdeasHistory
             (fun prevHistory =>
                let newHistory := slice0 prevHistory (closureIndex + 1) in
                newHistory ++ [entry]) s in
  setHistoryIndex (fun prevIndex => (prevIndex + 1)%Z) s.

Definition unexpected_format : jsstring :=
  lit "Received unexpected data format from API. Please try again.".

Section Orchestrator.
Context {host : Host}.

(** The callback of [parsedJson.slice(0, 5).map]. The spread reads no
    property of [gift] that can throw; [gift.purchaseLink] throws on
    [null]. *)
Definition rewritten (gift : value) (link : jsstring) : value :=
  VObject (set_prop (lit "purchaseLink") (VString link) (own_enumerable gift)).

Definition process_gift (gift : value) : completion value :=
  purchaseLink <- Get gift (lit "purchaseLink") ;;
  name <- Get gift (lit "name") ;;
  link <- processRetailerLink purchaseLink name ;;
  Normal (rewritten gift link).

(** An entry the callback goes through: it is not [null], and the link
    rewriter returns on its link and name. [published_for gift out]: [out]
    is [gift] with its link replaced by what the rewriter returned. *)
Definition rewritable (gift : value) : Prop :=
  is_nullish gift = false
  /\ exists link,
       processRetailerLink (field gift (lit "purchaseLink"))
                           (field gift (lit "name")) = Normal link.


Definition fetch_begin (s : AppState) : AppState :=
  setIsLoading true (setError None (setGiftIdeas (Some []) s)).

Definition fetch_try (closureIndex : Z) (r : api_result) (s : AppState)
  : completion AppState :=
  parsedJson <- await r ;;
  match parsedJson with
  | VArray elems =>
      processedGiftIdeas <- mapM process_gift (slice0 elems 5) ;;
      Normal (push closureIndex processedGiftIdeas s)
  | _ => Normal (setError (Some unexpected_format) s)
  end.

Definition fetch_failed (err : js_error) : jsstring :=
  lit "Failed to fetch gift suggestions: " ++ message err
  ++ lit ". Please try again.".

Definition fetch_settle (closureIndex : Z) (r : api_result) (s : AppState)
  : AppState :=
  let s' := match fetch_try closureIndex r s with
            | Normal s' => s'
            | Throw err => setError (Some (fetch_failed err)) s
            end in
  setIsLoading false s'.

(** One run of [fetchGiftSuggestions] with no other handler in between:
    the callback closes over the [historyIndex] of the state it starts in.
    [callGeminiApi] stands for the answer to this one request. *)
Definition fetchGiftSuggestions (c : Criteria)
  (callGeminiApi : jsstring -> api_result) (s : AppState) : AppState :=
  fetch_settle (historyIndex s) (callGeminiApi (mainPrompt c)) (fetch_begin s).

Definition generate_begin (s : AppState) : AppState :=
  setError None (setIsGeneratingMessage true (setCardMessage (VString []) s)).

Definition generate_settle (r : api_result) (s : AppState) : AppState :=
  let s' := match await r with
            | Normal message => setCardMessage message s
            | Throw err =>
                setCardMessage
                  (VString (lit "Error generating message. Please try again."))
                  (setError
                     (Some (lit "Failed to generate card message: "
                            ++ message err ++ lit ".")) s)
            end in
  setIsGeneratingMessage false s'.

Definition generateCardMessage (c : Criteria)
  (callGeminiApi : jsstring -> api_result) (s : AppState) : AppState :=
  generate_settle (callGeminiApi (fullMessagePrompt c)) (generate_begin s).

End Orchestrator.

Definition goBackInHistory (s : AppState) : AppState :=
  if (historyIndex s >? 0)%Z then
    let newIndex := (historyIndex s - 1)%Z in
    let s' := setHistoryIndex (fun _ => newIndex) s in
    let s' := setGiftIdeas (at_index (giftIdeasHistory s) newIndex) s' in
    setError None s'
  else s.

Definition goForwardInHistory (s : AppState) : AppState :=
  if (historyIndex s <? Z.of_nat (List.length (giftIdeasHistory s)) - 1)%Z then
    let newIndex := (historyIndex s + 1)%Z in
    let s' := setHistoryIndex (fun _ => newIndex) s in
    let s' := setGiftIdeas (at_index (giftIdeasHistory s) newIndex) s' in
    setError None s'
  else s.

(** The cursor stays within [-1, length - 1]. *)
Definition cursor_in_range (s : AppState) : Prop :=
  (-1 <= historyIndex s <= Z.of_nat (List.length (giftIdeasHistory s)) - 1)%Z.

(** What is displayed is the history entry under the cursor. *)
Definition shows_cursor_entry (s : AppState) : Prop :=
  giftIdeas s = at_index (giftIdeasHistory s) (historyIndex s).

(** *** The page as a transition system

    A call in flight keeps what its callback closed over. Every control
    is disabled while [isLoading] or [isGeneratingMessage] is set; the two
    fetch buttons and the message button also need a non-blank occasion,
    Back needs [historyIndex > 0] and Forward an entry after the cursor. *)

Inductive call :=
| FetchCall (closureIndex : Z)
| MessageCall.

Record Session := {
  app : AppState;
  inflight : list call
}.

Definition busy (s : AppState) : bool := isLoading s || isGeneratingMessage s.

Section Steps.
Context {host : Host}.

Inductive step : Session -> Session -> Prop :=
| click_find s c :
    busy (app s) = false -> is_empty (trim (occasion c)) = false ->
    step s {| app := fetch_begin (app s);
              inflight := FetchCall (historyIndex (app s)) :: inflight s |}
| settle_fetch s before after closureIndex r :
    inflight s = before ++ FetchCall closureIndex :: after ->
    step s {| app := fetch_settle closureIndex r (app s);
              inflight := before ++ after |}
| click_message s c :
    busy (app s) = false -> is_empty (trim (occasion c)) = false ->
    step s {| app := generate_begin (app s);
              inflight := MessageCall :: inflight s |}
| settle_message s before after r :
    inflight s = before ++ MessageCall :: after ->
    step s {| app := generate_settle r (app s);
              inflight := before ++ after |}
| click_back s :
    busy (app s) = false -> (historyIndex (app s) <=? 0)%Z = false ->
    step s {| app := goBackInHistory (app s); inflight := inflight s |}
| click_forward s :
    busy (app s) = false ->
    (historyIndex (app s)
       >=? Z.of_nat (List.length (giftIdeasHistory (app s))) - 1)%Z = false ->
    step s {| app := goForwardInHistory (app s); inflight := inflight s |}.

Inductive reachable : Session -> Prop :=
| reachable_initial : reachable {| app := initial; inflight := [] |}
| reachable_step s s' : reachable s -> step s s' -> reachable s'.

End Steps.

(** What holds of every session the page reaches: the cursor is in range,
    something is displayed, and at most one call is in flight, under the
    matching loading flag and with the cursor its callback closed over. *)
Definition consistent (s : Session) : Prop :=
  cursor_in_range (app s)
  /\ giftIdeas (app s) <> None
  /\ match inflight s with
     | [] => isLoading (app s) = false /\ isGeneratingMessage (app s) = false
     | [FetchCall closureIndex] =>
         isLoading (app s) = true /\ isGeneratingMessage (app s) = false
         /\ closureIndex = historyIndex (app s)
     | [MessageCall] =>
         isLoading (app s) = false /\ isGeneratingMessage (app s) = true
     | _ => False
     end.

End App.

(** ** The form helpers *)

Module Form.
Import JS Prompt.

(** [value.replace(/[^0-9]/g, '')] of [handleNumericInputChange]: the
    pattern has no [u] flag and runs over code units. *)
Definition is_digit (c : code_unit) : bool := ((48 <=? c) && (c <=? 57))%N.

Definition numericValue (value : jsstring) : jsstring := filter is_digit value.

(** The three handlers made from it, on the criteria they set. *)
Definition handleAgeChange (value : jsstring) (c : Criteria) : Criteria :=
  {| interests := interests c; notableEvents := notableEvents c;
     minPrice := minPrice c; maxPrice := maxPrice c;
     age := numericValue value; gender := gender c;
     relationship := relationship c; occasion := occasion c |}.

Definition handleMinPriceChange (value : jsstring) (c : Criteria) : Criteria :=
  {| interests := interests c; notableEvents := notableEvents c;
     minPrice := numericValue value; maxPrice := maxPrice c;
     age := age c; gender := gender c;
     relationship := relationship c; occasion := occasion c |}.

Definition handleMaxPriceChange (value : jsstring) (c : Criteria) : Criteria :=
  {| interests := interests c; notableEvents := notableEvents c;
     minPrice := minPrice c; maxPrice := numericValue value;
     age := age c; gender := gender c;
     relationship := relationship c; occasion := occasion c |}.

(** What the two price inputs show: the amount behind a dollar sign, or
    nothing. *)
Definition price_shown (price : jsstring) : jsstring :=
  if nonempty price then lit "$" ++ price else [].

(** [s.charAt(0)]. *)
Definition charAt0 (s : jsstring) : jsstring :=
  match s with
  | [] => []
  | c :: _ => [c]
  end.

(** [getArticle]. [String.prototype.toLowerCase] follows the Unicode case
    tables and is taken from outside. *)
Section Article.
Variable toLowerCase : jsstring -> jsstring.

Definition getArticle (word : jsstring) : jsstring :=
  if is_empty word then lit "a"
  else
    let firstChar := charAt0 (toLowerCase (trim word)) in
    if existsb (jsstring_eqb firstChar) (map lit ["a"; "e"; "i"; "o"; "u"]%string)
    then lit "an" else lit "a".

End Article.

(** Lower-casing of an ASCII code unit, and what every [toLowerCase] does
    on a string that starts with one: the first code unit of the result
    is its lower case. *)
Definition ascii_lower (c : code_unit) : code_unit :=
  if ((65 <=? c) && (c <=? 90))%N then (c + 32)%N else c.

Definition lowers_ascii (toLowerCase : jsstring -> jsstring) : Prop :=
  toLowerCase [] = []
  /\ forall c rest, (c < 128)%N ->
       exists rest', toLowerCase (c :: rest) = ascii_lower c :: rest'.

Definition is_vowel_letter (c : code_unit) : bool :=
  existsb (N.eqb c) (lit "aeiouAEIOU").

End Form.

(** ** The result list

    The list item of a gift (the callback of [giftIdeas.map]). It has
    [gift.name] and [gift.description] as children: React renders a
    string or a number as text, [true], [false], [null] and [undefined]
    as nothing, an array as its elements, and throws on a plain object.
    Then comes the purchase link, when
    [gift.purchaseLink && gift.purchaseLink !== '#'], with the link
    rewriter run once more for its [href], or else the note that there
    is no link. *)

Module Render.
Import JS LinkRewriter.







End Render.

(** ** A host to run the model on

    Its URL parser reads [scheme://host] followed by the end of the string
    or by one of [/ ? # :], and gives [host] as it stands; on the
    lower-case links without credentials used in this file that is the
    [hostname] of the URL Standard. Its engine messages are stand-ins,
    the names of the errors: the texts of an engine vary with the engine
    and with what was being read, and no statement below depends on
    them. *)

Module SampleHost.
Import JS.

Definition is_ascii_alpha (c : code_unit) : bool :=
  ((65 <=? c) && (c <=? 90) || (97 <=? c) && (c <=? 122))%N.

Definition is_scheme_char (c : code_unit) : bool :=
  is_ascii_alpha c || ((48 <=? c) && (c <=? 57))%N
  || existsb (N.eqb c) (lit "+-.").

Fixpoint after_scheme (s : jsstring) : option jsstring :=
  match s with
  | [] => None
  | c :: rest =>
      if (c =? 58)%N then Some rest
      else if is_scheme_char c then after_scheme rest
      else None
  end.

Fixpoint host_part (s : jsstring) : jsstring :=
  match s with
  | [] => []
  | c :: rest =>
      if existsb (N.eqb c) (lit "/?#:") then [] else c :: host_part rest
  end.

Definition sample_hostname (s : jsstring) : option jsstring :=
  match s with
  | [] => None
  | c :: _ =>
      if is_ascii_alpha c then
        match after_scheme s with
        | Some (47 :: 47 :: rest)%N =>
            if is_empty (host_part rest) then None else Some (host_part rest)
        | _ => None
        end
      else None
  end.

Definition sample_engine_message (e : js_error) : jsstring :=
  match e with
  | URIError => lit "URIError"
  | TypeError => lit "TypeError"
  | Rejection m => m
  end.

Lemma after_scheme_colon (s rest : jsstring) :
  after_scheme s = Some rest -> In 58%N s.
Proof.
  induction s as [|c s IH]; simpl; [discriminate|].
  destruct (N.eqb_spec c 58) as [->|_]; [now left|].
  destruct (is_scheme_char c); [|discriminate].
  intros E. right. exact (IH E).
Qed.

Lemma sample_hostname_scheme (s h : jsstring) :
  sample_hostname s = Some h -> In 58%N s.
Proof.
  unfold sample_hostname. destruct s as [|c s]; [discriminate|].
  destruct (is_ascii_alpha c); [|discriminate].
  destruct (after_scheme (c :: s)) as [rest|] eqn:E; [|discriminate].
  intros _. exact (after_scheme_colon _ _ E).
Qed.

#[export] Instance sample_host : Host :=
  {| url_hostname := sample_hostname;
     url_hostname_scheme := sample_hostname_scheme;
     engine_message := sample_engine_message |}.

End SampleHost.

(** ** Sample inputs *)

Module Samples.
Import JS Prompt App SampleHost.

Definition only_min_price : Criteria :=
  {| interests := []; notableEvents := []; minPrice := lit "10"; maxPrice := [];
     age := []; gender := []; relationship := []; occasion := [] |}.

Definition chess_and_graduation : Criteria :=
  {| interests := lit "chess"; notableEvents := lit "a graduation";
     minPrice := []; maxPrice := [];
     age := []; gender := []; relationship := []; occasion := [] |}.

Definition birthday_30 : Criteria :=
  {| interests := []; notableEvents := []; minPrice := []; maxPrice := [];
     age := lit "30"; gender := []; relationship := [];
     occasion := lit "Birthday" |}.

Definition gift (name description purchaseLink : string) : value :=
  VObject [(lit "name", VString (lit name));
           (lit "description", VString (lit description));
           (lit "purchaseLink", VString (lit purchaseLink))].

Definition six_gifts : list value :=
  [gift "Lego set" "A building kit" "https://www.amazon.com/dp/B01";
   gift "Mug" "Hand made" "https://www.etsy.com/listing/1";
   gift "Lamp" "A desk lamp" "https://www.target.com/p/lamp";
   gift "Headphones" "Wireless" "https://www.bestbuy.com/site/1.p";
   gift "Tea" "A sampler" "https://brandsite.example/product/123";
   gift "Socks" "Warm" "not a url"]%string.

Definition five_published : list value :=
  [gift "Lego set" "A building kit"
     "https://www.amazon.com/s?k=Lego%20set&tag=realstory-20";
   gift "Mug" "Hand made" "https://www.etsy.com/search?q=Mug";
   gift "Lamp" "A desk lamp" "https://www.target.com/s?searchTerm=Lamp";
   gift "Headphones" "Wireless"
     "https://www.bestbuy.com/site/searchpage.jsp?st=Headphones";
   gift "Tea" "A sampler" "https://brandsite.example/product/123"]%string.

(** A gateway that answers the request with [payload], and one that
    fails as on an HTTP 500. *)
Definition gateway_returns (payload : value) : jsstring -> api_result :=
  fun _ => Resolved payload.

Definition gateway_http_500 : jsstring -> api_result :=
  fun _ => Rejected (lit "API error: 500 Internal Server Error - Unknown error").

(** A first fetch that succeeds, then a second one that fails. *)
Definition after_failed_refetch : AppState :=
  fetchGiftSuggestions birthday_30 gateway_http_500
    (fetchGiftSuggestions birthday_30 (gateway_returns (VArray six_gifts))
       initial).

(** Two fetches that succeed, one after the other. *)
Definition after_two_fetches : AppState :=
  fetchGiftSuggestions birthday_30 (gateway_returns (VArray [gift "Tea" "A sampler" "not a url"]))
    (fetchGiftSuggestions birthday_30 (gateway_returns (VArray six_gifts))
       initial).

End Samples.

(** * Properties *)

(** ** Strings *)

Module JSFacts.
Import JS.

Lemma jsstring_eqb_eq (s t : jsstring) : jsstring_eqb s t = true <-> s = t.
Proof.
  revert t; induction s as [|c s IH]; intros [|d t]; simpl;
    try (split; [discriminate | congruence]); [tauto|].
  rewrite andb_true_iff, N.eqb_eq, IH. split.
  - intros [-> ->]; reflexivity.
  - intros E; injection E; auto.
Qed.

Lemma startsWith_spec (s p : jsstring) :
  startsWith s p = true <-> exists post, s = p ++ post.
Proof.
  revert s; induction p as [|c p IH]; intros s; simpl.
  - split; [exists s; reflexivity | reflexivity].
  - destruct s as [|d s].
    + split; [discriminate | intros [post E]; discriminate].
    + rewrite andb_true_iff, N.eqb_eq, IH. split.
      * intros [-> [post ->]]. exists post; reflexivity.
      * intros [post E]; injection E as -> ->. split; [reflexivity | eauto].
Qed.

(** [includes] is substring containment. *)
Lemma includes_spec (s p : jsstring) :
  includes s p = true <-> exists pre post, s = pre ++ p ++ post.
Proof.
  induction s as [|d s IH].
  - simpl. rewrite orb_false_r, startsWith_spec. split.
    + intros [post E]. exists [], post. exact E.
    + intros [pre [post E]]. destruct pre; [|discriminate]. eauto.
  - cbn [includes]. rewrite orb_true_iff, startsWith_spec, IH. split.
    + intros [[post E] | [pre [post E]]].
      * exists [], post. exact E.
      * exists (d :: pre), post. rewrite E. reflexivity.
    + intros [[|e pre] [post E]].
      * left. exists post. exact E.
      * right. injection E as _ E. eauto.
Qed.

Lemma trimStart_blank (s : jsstring) :
  trimStart s = [] <-> forallb is_trim_space s = true.
Proof.
  induction s as [|c s IH]; simpl; [tauto|].
  destruct (is_trim_space c); simpl; [exact IH|].
  split; discriminate.
Qed.

(** [trim] leaves nothing exactly of the strings made of white space. *)
Lemma trim_blank (s : jsstring) :
  is_empty (trim s) = true <-> forallb is_trim_space s = true.
Proof.
  unfold trim, trimEnd. split.
  - intros E. destruct (rev (trimStart (rev (trimStart s)))) eqn:R;
      [|discriminate].
    apply (f_equal (@rev _)) in R. rewrite rev_involutive in R. simpl in R.
    apply trimStart_blank in R. rewrite forallb_forall in R.
    assert (B : forallb is_trim_space (trimStart s) = true).
    { apply forallb_forall. intros x Hx. apply R, in_rev.
      rewrite rev_involutive. exact Hx. }
    clear R E. induction s as [|c s IH]; [reflexivity|].
    simpl in *. destruct (is_trim_space c) eqn:C; simpl; [auto|].
    simpl in B. rewrite C in B. discriminate.
  - intros B. apply trimStart_blank in B. rewrite B. reflexivity.
Qed.

Lemma blank_no_colon (s : jsstring) :
  forallb is_trim_space s = true -> ~ In 58%N s.
Proof.
  rewrite forallb_forall. intros B C. apply B in C. discriminate.
Qed.

(** A blank string is no URL, on any host. *)
Lemma blank_not_url {host : Host} (s : jsstring) :
  is_empty (trim s) = true -> url_hostname s = None.
Proof.
  intros B. apply trim_blank, blank_no_colon in B.
  destruct (url_hostname s) as [h|] eqn:E; [|reflexivity].
  destruct (B (url_hostname_scheme _ _ E)).
Qed.

(** [join] puts the separator before every part but the first. *)
Lemma join_cons (sep p : jsstring) (rest : list jsstring) :
  join sep (p :: rest) = p ++ flat_map (fun q => sep ++ q) rest.
Proof.
  revert p; induction rest as [|q rest IH]; intros p.
  - simpl. rewrite app_nil_r. reflexivity.
  - change (join sep (p :: q :: rest)) with (p ++ sep ++ join sep (q :: rest)).
    rewrite IH. simpl. rewrite <- app_assoc. reflexivity.
Qed.

(** *** When percent-encoding throws

    [Encode] fails exactly on an unpaired surrogate. *)

Fixpoint well_formed (s : jsstring) : bool :=
  match s with
  | [] => true
  | c :: rest =>
      if is_trailing_surrogate c then false
      else if is_leading_surrogate c then
        match rest with
        | d :: rest' => is_trailing_surrogate d && well_formed rest'
        | [] => false
        end
      else well_formed rest
  end.

Lemma unescaped_not_surrogate (c : code_unit) :
  is_uri_unescaped c = true ->
  is_trailing_surrogate c = false /\ is_leading_surrogate c = false.
Proof.
  unfold is_uri_unescaped, is_trailing_surrogate, is_leading_surrogate.
  intros U.
  assert (L : (c <= 126)%N).
  { rewrite !orb_true_iff, !andb_true_iff, !N.leb_le in U.
    destruct U as [[[U|U]|U]|U]; try lia.
    apply existsb_exists in U. destruct U as [x [Hx E]].
    apply N.eqb_eq in E. subst x. simpl in Hx.
    repeat (destruct Hx as [<-|Hx]; [lia|]). destruct Hx. }
  split; apply andb_false_iff; left; apply N.leb_gt; lia.
Qed.

Lemma Encode_well_formed (s : jsstring) :
  (well_formed s = true -> exists r, Encode s = Normal r) /\
  (well_formed s = false -> Encode s = Throw URIError).
Proof.
  assert (G : forall n s, (List.length s <= n)%nat ->
    (well_formed s = true -> exists r, Encode s = Normal r) /\
    (well_formed s = false -> Encode s = Throw URIError)).
  { clear s. induction n as [|n IH]; intros s L.
    - destruct s; [|simpl in L; lia]. simpl. split; [eauto|discriminate].
    - destruct s as [|c rest]; [simpl; split; [eauto|discriminate]|].
      simpl in L. cbn [well_formed Encode].
      destruct (is_uri_unescaped c) eqn:U.
      + destruct (unescaped_not_surrogate _ U) as [-> ->].
        destruct (IH rest ltac:(lia)) as [I1 I2]. split; intros W.
        * destruct (I1 W) as [r ->]. simpl. eauto.
        * rewrite (I2 W). reflexivity.
      + destruct (is_trailing_surrogate c); [split; [discriminate|reflexivity]|].
        destruct (is_leading_surrogate c).
        * destruct rest as [|d rest']; [split; [discriminate|reflexivity]|].
          destruct (is_trailing_surrogate d); simpl;
            [|split; [discriminate|reflexivity]].
          simpl in L. destruct (IH rest' ltac:(lia)) as [I1 I2].
          split; intros W.
          -- destruct (I1 W) as [r ->]. simpl. eauto.
          -- rewrite (I2 W). reflexivity.
        * destruct (IH rest ltac:(lia)) as [I1 I2]. split; intros W.
          -- destruct (I1 W) as [r ->]. simpl. eauto.
          -- rewrite (I2 W). reflexivity. }
  exact (G (List.length s) s (le_n _)).
Qed.

End JSFacts.

(** ** The link rewriter *)

Module LinkRewriterFacts.
Import JS LinkRewriter JSFacts.

Section AnyHost.
Context {host : Host}.

Lemma rewriter_on_string (link : jsstring) (giftName : value) :
  is_empty (trim link) = false ->
  processRetailerLink (VString link) giftName
  = (searchTerm <- searchTermOf giftName ;; Normal (dispatch link searchTerm)).
Proof. intros B. unfold processRetailerLink. rewrite B. reflexivity. Qed.

Lemma url_not_blank (link hostname : jsstring) :
  url_hostname link = Some hostname -> is_empty (trim link) = false.
Proof.
  intros U. destruct (is_empty (trim link)) eqn:B; [|reflexivity].
  rewrite (blank_not_url link B) in U. discriminate.
Qed.

(** On a link that parses, the rewriter is the hostname dispatch on the
    encoded search term. *)
Lemma rewriter_on_url (link hostname : jsstring) (giftName : value)
  (searchTerm : jsstring) :
  url_hostname link = Some hostname ->
  searchTermOf giftName = Normal searchTerm ->
  processRetailerLink (VString link) giftName = Normal (dispatch link searchTerm).
Proof.
  intros U T.
  rewrite (rewriter_on_string link giftName (url_not_blank link hostname U)), T.
  reflexivity.
Qed.

(** X1: the rewriter throws exactly when the link is a non-blank string
    and the search term cannot be encoded, whatever the link is. *)
Lemma rewriter_throws_iff (originalLink giftName : value) (e : js_error) :
  processRetailerLink originalLink giftName = Throw e <->
  exists link, originalLink = VString link /\ is_empty (trim link) = false
               /\ searchTermOf giftName = Throw e.
Proof.
  split.
  - destruct originalLink as [| | | |link| |]; try discriminate.
    unfold processRetailerLink. destruct (is_empty (trim link)) eqn:B;
      [discriminate|].
    destruct (searchTermOf giftName) eqn:T; simpl; [discriminate|].
    intros E; injection E as ->. eauto.
  - intros [link [-> [B T]]]. rewrite (rewriter_on_string link giftName B), T.
    reflexivity.
Qed.

Lemma amazon_matches (hostname : jsstring) :
  existsb (fun domain => includes hostname domain) amazonDomains = true <->
  exists domain, In domain amazonDomains /\ contains hostname domain.
Proof.
  rewrite existsb_exists. split; intros [d [I C]]; exists d; split; auto;
    apply includes_spec; exact C.
Qed.

Lemma no_amazon_match (hostname : jsstring) :
  (forall domain, In domain amazonDomains -> ~ contains hostname domain) ->
  existsb (fun domain => includes hostname domain) amazonDomains = false.
Proof.
  intros N. destruct (existsb _ amazonDomains) eqn:E; [|reflexivity].
  apply amazon_matches in E. destruct E as [d [I C]]. destruct (N d I C).
Qed.

Lemma not_includes (s p : jsstring) : ~ contains s p -> includes s p = false.
Proof.
  intros N. destruct (includes s p) eqn:E; [|reflexivity].
  apply includes_spec in E. destruct (N E).
Qed.

(** X2: when the rewriter returns, it returns the sentinel for exactly
    the links that are no string or that do not parse (the empty and the
    blank strings among them). *)
Lemma rewriter_sentinel_iff (originalLink giftName : value) (r : jsstring) :
  processRetailerLink originalLink giftName = Normal r ->
  (r = sentinel <->
   (forall link, originalLink <> VString link) \/
   (exists link, originalLink = VString link /\ url_hostname link = None)).
Proof.
  intros E.
  destruct originalLink as [| | | |link| |];
    try (injection E as <-; split; [left; discriminate | reflexivity]).
  unfold processRetailerLink in E.
  destruct (is_empty (trim link)) eqn:B.
  - injection E as <-. split; [|reflexivity].
    intros _. right. exists link. split; [reflexivity|].
    apply blank_not_url, B.
  - destruct (searchTermOf giftName) as [t|] eqn:T; [|discriminate].
    simpl in E. injection E as <-. unfold dispatch.
    destruct (url_hostname link) as [h|] eqn:U.
    + split.
      * intros D. exfalso.
        destruct (existsb _ amazonDomains); [discriminate D|].
        destruct (includes h (lit "etsy.com")); [discriminate D|].
        destruct (includes h (lit "target.com")); [discriminate D|].
        destruct (includes h (lit "bestbuy.com")); [discriminate D|].
        subst link. apply url_hostname_scheme in U.
        destruct U as [U|[]]. discriminate U.
      * intros [N|[l [L N]]]; [destruct (N link eq_refl)|].
        injection L as <-. rewrite U in N. discriminate.
    + split; [|reflexivity]. intros _. right. eauto.
Qed.

(** X3: a link whose hostname holds no retailer domain comes back
    unchanged, provided the search term could be encoded. *)
Lemma passthrough_when_encodable (link hostname : jsstring)
  (giftName : value) (searchTerm : jsstring) :
  url_hostname link = Some hostname ->
  (forall domain, In domain amazonDomains -> ~ contains hostname domain) ->
  ~ contains hostname (lit "etsy.com") ->
  ~ contains hostname (lit "target.com") ->
  ~ contains hostname (lit "bestbuy.com") ->
  searchTermOf giftName = Normal searchTerm ->
  processRetailerLink (VString link) giftName = Normal link.
Proof.
  intros U A E T B S. rewrite (rewriter_on_url link hostname giftName searchTerm U S).
  unfold dispatch.
  rewrite U, (no_amazon_match hostname A), (not_includes _ _ E),
    (not_includes _ _ T), (not_includes _ _ B). reflexivity.
Qed.

(** C4, at the input where the code departs from it. The rewriter is to
    turn every failure into the sentinel and never raise. It does so for a
    link that does not parse ([not a url]), but the search term is encoded
    before the [try]: with a gift name that is a lone surrogate,
    [encodeURIComponent] throws a URIError that reaches the caller. *)
Theorem rewriter_raises_on_unencodable_name :
  processRetailerLink (VString (lit "https://www.amazon.com/dp/B01"))
                      (VString [0xD83D%N])
  = Throw URIError
  /\ processRetailerLink (VString (lit "not a url")) (VString (lit "Mug"))
     = Normal (lit "#").
Proof.
  split; [reflexivity|].
  assert (U : url_hostname (lit "not a url") = None).
  { destruct (url_hostname (lit "not a url")) as [h|] eqn:E; [|reflexivity].
    apply url_hostname_scheme in E. vm_compute in E.
    repeat (destruct E as [E|E]; [discriminate E|]). destruct E. }
  unfold processRetailerLink.
  change (is_empty (trim (lit "not a url"))) with false. cbv iota.
  change (searchTermOf (VString (lit "Mug"))) with (Normal (lit "Mug")).
  unfold bind, dispatch. rewrite U. reflexivity.
Qed.

(** X23: for a gift name whose search term can be encoded, a link that
    parses and whose hostname contains one of the Amazon domains becomes
    [https://<hostname>/s?k=<encoded gift name>] followed by the
    affiliate tag, whatever else the hostname or the link contains: the
    Amazon case is tried before Etsy, Target and Best Buy. *)
Theorem amazon_search_url_with_tag (link hostname : jsstring)
  (giftName : value) (searchTerm : jsstring) :
  url_hostname link = Some hostname ->
  (exists domain, In domain amazonDomains /\ contains hostname domain) ->
  searchTermOf giftName = Normal searchTerm ->
  processRetailerLink (VString link) giftName
  = Normal (lit "https://" ++ hostname ++ lit "/s?k=" ++ searchTerm
            ++ lit "&tag=realstory-20").
Proof.
  intros U A T. rewrite (rewriter_on_url link hostname giftName searchTerm U T).
  unfold dispatch. rewrite U.
  apply amazon_matches in A. rewrite A.
  rewrite <- !app_assoc. reflexivity.
Qed.

(** C5, at the inputs where the code departs from it. Every link that
    parses and whose hostname contains an Amazon domain is to give the
    Amazon search URL (and does for an encodable gift name,
    [amazon_search_url_with_tag]); but the search term is encoded before
    the [try], and with a lone surrogate as gift name the call throws a
    URIError instead of returning a URL. *)
Theorem amazon_link_raises_on_unencodable_name (link hostname : jsstring) :
  url_hostname link = Some hostname ->
  (exists domain, In domain amazonDomains /\ contains hostname domain) ->
  processRetailerLink (VString link) (VString [0xD83D%N]) = Throw URIError.
Proof.
  intros U _.
  rewrite (rewriter_on_string link _ (url_not_blank link hostname U)).
  reflexivity.
Qed.

(** C6, at the input where the code departs from it. A link to a site
    that is no known retailer is to come back unchanged for any gift
    name (and does for an encodable one, [passthrough_when_encodable]),
    but the search term this branch never uses is encoded first: with a
    lone surrogate as gift name the call throws instead. *)
Theorem passthrough_raises_on_unencodable_name :
  processRetailerLink (VString (lit "https://brandsite.example/product/123"))
                      (VString [0xD83D%N])
  = Throw URIError.
Proof. reflexivity. Qed.

(** C10, amended. For a gift name whose search term can be encoded,
    dispatch is by substring containment on the parsed hostname, in
    priority order: a hostname that contains an Amazon
    domain anywhere gives the Amazon search URL on that whole hostname
    with the tag; one that contains [etsy.com] and no Amazon domain gives
    the Etsy search URL; one that contains [target.com] and neither of
    those gives the Target search URL; one that contains [bestbuy.com]
    and none of those gives the Best Buy search URL. *)
Theorem dispatch_by_substring_in_order (link hostname : jsstring)
  (giftName : value) (searchTerm : jsstring) :
  url_hostname link = Some hostname ->
  searchTermOf giftName = Normal searchTerm ->
  let no_amazon :=
    forall domain, In domain amazonDomains -> ~ contains hostname domain in
  let result := processRetailerLink (VString link) giftName in
  ((exists domain, In domain amazonDomains /\ contains hostname domain) ->
   result = Normal (lit "https://" ++ hostname ++ lit "/s?k=" ++ searchTerm
                    ++ lit "&tag=realstory-20"))
  /\ (no_amazon -> contains hostname (lit "etsy.com") ->
      result = Normal (lit "https://www.etsy.com/search?q=" ++ searchTerm))
  /\ (no_amazon -> ~ contains hostname (lit "etsy.com") ->
      contains hostname (lit "target.com") ->
      result = Normal (lit "https://www.target.com/s?searchTerm=" ++ searchTerm))
  /\ (no_amazon -> ~ contains hostname (lit "etsy.com") ->
      ~ contains hostname (lit "target.com") ->
      contains hostname (lit "bestbuy.com") ->
      result = Normal (lit "https://www.bestbuy.com/site/searchpage.jsp?st="
                       ++ searchTerm)).
Proof.
  intros U T no_amazon result. subst result.
  rewrite (rewriter_on_url link hostname giftName searchTerm U T).
  unfold dispatch. rewrite U. repeat split.
  - intros A. apply amazon_matches in A. rewrite A.
    rewrite <- !app_assoc. reflexivity.
  - intros A E. rewrite (no_amazon_match hostname A).
    apply includes_spec in E. rewrite E. reflexivity.
  - intros A E G. rewrite (no_amazon_match hostname A), (not_includes _ _ E).
    apply includes_spec in G. rewrite G. reflexivity.
  - intros A E G B.
    rewrite (no_amazon_match hostname A), (not_includes _ _ E),
      (not_includes _ _ G).
    apply includes_spec in B. rewrite B. reflexivity.
Qed.

End AnyHost.

(** *** On the sample host *)

Import SampleHost.

Lemma amazon_search_url_with_tag_witness :
  processRetailerLink
    (VString (lit "https://target.com.etsy.com.amazon.de/item"))
    (VString (lit "Lego set"))
  = Normal (lit "https://target.com.etsy.com.amazon.de/s?k=Lego%20set&tag=realstory-20").
Proof.
  apply (amazon_search_url_with_tag (host := sample_host)
           (lit "https://target.com.etsy.com.amazon.de/item")
           (lit "target.com.etsy.com.amazon.de")
           (VString (lit "Lego set")) (lit "Lego%20set")).
  - reflexivity.
  - exists (lit "amazon.de"). split.
    + simpl. tauto.
    + exists (lit "target.com.etsy.com."), []. reflexivity.
  - reflexivity.
Defined.

Lemma amazon_link_raises_on_unencodable_name_witness :
  url_hostname (lit "https://www.amazon.co.uk/gp/product/1")
  = Some (lit "www.amazon.co.uk")
  /\ processRetailerLink (VString (lit "https://www.amazon.co.uk/gp/product/1"))
                         (VString [0xD83D%N])
     = Throw URIError.
Proof.
  split; [reflexivity|].
  apply (amazon_link_raises_on_unencodable_name (host := sample_host)
           (lit "https://www.amazon.co.uk/gp/product/1")
           (lit "www.amazon.co.uk") eq_refl).
  exists (lit "amazon.co.uk"). split.
  - simpl. tauto.
  - exists (lit "www."), []. reflexivity.
Defined.

(** C10 as stated fails: this hostname contains [target.com], and the
    link is rewritten to the Etsy search, not to the Target one. *)
Lemma target_substring_rewritten_to_etsy :
  url_hostname (lit "https://target.com.etsy.com/x")
  = Some (lit "target.com.etsy.com")
  /\ includes (lit "target.com.etsy.com") (lit "target.com") = true
  /\ processRetailerLink (VString (lit "https://target.com.etsy.com/x"))
                         (VString (lit "Mug"))
     = Normal (lit "https://www.etsy.com/search?q=Mug")
  /\ processRetailerLink (VString (lit "https://target.com.etsy.com/x"))
                         (VString (lit "Mug"))
     <> Normal (lit "https://www.target.com/s?searchTerm=Mug").
Proof.
  repeat split; try reflexivity. discriminate.
Qed.

Lemma dispatch_by_substring_in_order_witness :
  processRetailerLink (VString (lit "https://amazon.com.evil.example/dp/1"))
                      (VString (lit "Mug"))
  = Normal (lit "https://amazon.com.evil.example/s?k=Mug&tag=realstory-20").
Proof.
  apply (dispatch_by_substring_in_order (host := sample_host)
           (lit "https://amazon.com.evil.example/dp/1")
           (lit "amazon.com.evil.example")
           (VString (lit "Mug")) (lit "Mug") eq_refl eq_refl).
  exists (lit "amazon.com"). split.
  - simpl. tauto.
  - exists [], (lit ".evil.example"). reflexivity.
Defined.

End LinkRewriterFacts.

(** ** The prompt builders *)

Module PromptFacts.
Import JS Prompt JSFacts Samples.

Lemma join_snoc (sep p x : jsstring) (rest : list jsstring) :
  join sep ((p :: rest) ++ [x]) = join sep (p :: rest) ++ sep ++ x.
Proof.
  change ((p :: rest) ++ [x]) with (p :: (rest ++ [x])).
  rewrite !join_cons, flat_map_app. simpl.
  rewrite app_nil_r, <- !app_assoc. reflexivity.
Qed.

Ltac by_fields c :=
  destruct c as [i ne mn mx a g r o];
  destruct i, ne, mn, mx, a, g, r, o; reflexivity.

(** The pushes of [fetchGiftSuggestions] build the clauses of the present
    fields in the order of the specification. *)
Lemma promptParts_in_order (c : Criteria) :
  promptParts c = gift_intro :: clauses_in_order gift_clause spec_order c.
Proof. by_fields c. Qed.

(** The pushes of [generateCardMessage] follow [message_order], where
    interests come before notable events and there is no price range. *)
Lemma messagePromptParts_in_order (c : Criteria) :
  messagePromptParts c
  = message_intro :: clauses_in_order message_clause message_order c.
Proof. by_fields c. Qed.

Lemma promptParts_price (c : Criteria) :
  promptParts c
  = promptParts (without_price c)
    ++ match spec_price_phrase c with
       | Some p => [lit "The price range should be " ++ p ++ lit "."]
       | None => []
       end.
Proof. by_fields c. Qed.

(** C7: the price clause of the gift prompt is one of the three templates
    (both bounds: [between $min and $max]; only the lower: [above $min];
    only the upper: [up to $max]) and is left out when neither bound is
    given: the prompt is the prompt of the same criteria without prices,
    with that clause, if any, added last before the request. *)
Theorem price_clause_follows_templates (c : Criteria) :
  priceRangeString c
  = match spec_price_phrase c with Some p => p | None => [] end
  /\ promptParts c
     = promptParts (without_price c)
       ++ match spec_price_phrase c with
          | Some p => [lit "The price range should be " ++ p ++ lit "."]
          | None => []
          end
  /\ mainPrompt c
     = join (lit " ") (promptParts (without_price c))
       ++ match spec_price_phrase c with
          | Some p => lit " The price range should be " ++ p ++ lit "."
          | None => []
          end
       ++ gift_request.
Proof.
  split; [by_fields c|]. split; [apply promptParts_price|].
  unfold mainPrompt. rewrite promptParts_price.
  rewrite (promptParts_in_order (without_price c)).
  destruct (spec_price_phrase c) as [p|].
  - rewrite join_snoc, <- !app_assoc. reflexivity.
  - rewrite app_nil_r. reflexivity.
Qed.

(** C8, amended. In the gift prompt every present field gives exactly one
    clause, in the order occasion, relationship, age, gender, notable
    events, interests, price range. In the card-message prompt every
    present field among occasion, relationship, age, gender, interests,
    notable events gives exactly one clause, in that order, and the price
    fields give none. In both, an absent field gives no text: the prompt
    is the opening sentence, then one space and one clause per present
    field, then the request. *)
Theorem clauses_follow_field_order (c : Criteria) :
  promptParts c = gift_intro :: clauses_in_order gift_clause spec_order c
  /\ messagePromptParts c
     = message_intro :: clauses_in_order message_clause message_order c
  /\ mainPrompt c
     = gift_intro
       ++ flat_map (fun clause => lit " " ++ clause)
            (clauses_in_order gift_clause spec_order c)
       ++ gift_request
  /\ fullMessagePrompt c
     = message_intro
       ++ flat_map (fun clause => lit " " ++ clause)
            (clauses_in_order message_clause message_order c)
       ++ message_request.
Proof.
  split; [apply promptParts_in_order|].
  split; [apply messagePromptParts_in_order|].
  unfold mainPrompt, fullMessagePrompt.
  rewrite promptParts_in_order, messagePromptParts_in_order, !join_cons,
    <- !app_assoc.
  split; reflexivity.
Qed.

(** C8 as stated fails on the card-message prompt: no wording of the
    clauses makes it one clause per present field in the order of the
    specification, since a price bound adds nothing to it; and its
    interests clause comes before its notable-events clause. *)
Lemma message_prompt_not_in_spec_order :
  ~ (exists clause : Criteria -> field_name -> jsstring,
       forall c, messagePromptParts c
                 = message_intro :: clauses_in_order clause spec_order c)
  /\ messagePromptParts only_min_price = [message_intro]
  /\ messagePromptParts chess_and_graduation
     = [message_intro; lit "They are interested in chess.";
        lit "They have been busy with a graduation."].
Proof.
  split; [|split; reflexivity].
  intros [clause E]. specialize (E only_min_price). discriminate E.
Qed.

End PromptFacts.

(** ** Fetch orchestration and history *)

Module AppFacts.
Import JS LinkRewriter Prompt App.

Local Open Scope Z_scope.

Lemma slice0_nonneg {A} (l : list A) (e : Z) :
  0 <= e -> slice0 l e = firstn (Z.to_nat e) l.
Proof.
  intros E. unfold slice0.
  destruct (Z.ltb_spec e 0) as [L|_]; [lia|].
  destruct (Z.le_ge_cases e (Z.of_nat (List.length l))) as [L|L].
  - rewrite Z.min_l by exact L. reflexivity.
  - rewrite Z.min_r by exact L. rewrite Nat2Z.id.
    rewrite !firstn_all2; [reflexivity | lia | lia].
Qed.

Lemma slice0_length_in_range {A} (l : list A) (i : Z) :
  -1 <= i <= Z.of_nat (List.length l) - 1 ->
  List.length (slice0 l (i + 1)) = Z.to_nat (i + 1).
Proof.
  intros R. rewrite slice0_nonneg by lia. apply firstn_length_le. lia.
Qed.

Lemma at_index_last {A} (l : list A) (e : A) (k : Z) :
  0 <= k -> List.length l = Z.to_nat k -> at_index (l ++ [e]) k = Some e.
Proof.
  intros K L. unfold at_index.
  destruct (Z.ltb_spec k 0) as [N|_]; [lia|].
  rewrite nth_error_app2 by lia. rewrite L, Nat.sub_diag. reflexivity.
Qed.

Lemma at_index_in_range {A} (l : list A) (i : Z) :
  0 <= i <= Z.of_nat (List.length l) - 1 -> at_index l i <> None.
Proof.
  intros R. unfold at_index. destruct (Z.ltb_spec i 0) as [N|_]; [lia|].
  apply nth_error_Some. lia.
Qed.

Lemma mapM_Normal {A B} (f : A -> completion B) (l : list A) (r : list B) :
  mapM f l = Normal r -> Forall2 (fun a b => f a = Normal b) l r.
Proof.
  revert r; induction l as [|a l IH]; simpl; intros r E.
  - injection E as <-. constructor.
  - destruct (f a) as [b|] eqn:F; [|discriminate]. simpl in E.
    destruct (mapM f l) as [bs|]; [|discriminate]. simpl in E.
    injection E as <-. constructor; auto.
Qed.

Lemma mapM_total {A B} (f : A -> completion B) (l : list A) :
  Forall (fun a => exists b, f a = Normal b) l -> exists r, mapM f l = Normal r.
Proof.
  induction 1 as [|a l [b F] _ [bs IH]]; simpl; [eauto|].
  rewrite F, IH. simpl. eauto.
Qed.

(** The cursor invariant under the three history operations. *)
Lemma push_in_range (s : AppState) (entry : list value) :
  cursor_in_range s -> cursor_in_range (push (historyIndex s) entry s).
Proof.
  unfold cursor_in_range. intros R. simpl.
  rewrite length_app, (slice0_length_in_range _ _ R). simpl. lia.
Qed.

Lemma goBack_in_range (s : AppState) :
  cursor_in_range s -> cursor_in_range (goBackInHistory s).
Proof.
  unfold cursor_in_range, goBackInHistory. intros R.
  destruct (Z.gtb_spec (historyIndex s) 0); simpl; lia.
Qed.

Lemma goForward_in_range (s : AppState) :
  cursor_in_range s -> cursor_in_range (goForwardInHistory s).
Proof.
  unfold cursor_in_range, goForwardInHistory. intros R.
  destruct (Z.ltb_spec (historyIndex s)
              (Z.of_nat (List.length (giftIdeasHistory s)) - 1)); simpl; lia.
Qed.

Lemma push_shows_entry (s : AppState) (entry : list value) :
  cursor_in_range s -> shows_cursor_entry (push (historyIndex s) entry s).
Proof.
  unfold cursor_in_range, shows_cursor_entry. intros R. simpl.
  symmetry. apply at_index_last; [lia|].
  apply slice0_length_in_range, R.
Qed.

(** C2: in every history state (the cursor within [-1, length - 1]),
    [push] keeps the entries up to the cursor, drops those beyond it,
    appends the new entry and moves the cursor to the new last index. In
    particular pushing E1, E2, E3, going back twice and pushing E4 leaves
    the history [E1, E4] with the cursor at index 1. *)
Theorem push_truncates_then_appends :
  (forall (s : AppState) (entry : list value),
     cursor_in_range s ->
     let s' := push (historyIndex s) entry s in
     giftIdeasHistory s'
     = firstn (Z.to_nat (historyIndex s + 1)) (giftIdeasHistory s) ++ [entry]
     /\ historyIndex s' = Z.of_nat (List.length (giftIdeasHistory s')) - 1
     /\ historyIndex s' = historyIndex s + 1)
  /\ (forall E1 E2 E3 E4 : list value,
        let push_now entry s := push (historyIndex s) entry s in
        let s := push_now E4 (goBackInHistory (goBackInHistory
                   (push_now E3 (push_now E2 (push_now E1 initial))))) in
        giftIdeasHistory s = [E1; E4] /\ historyIndex s = 1).
Proof.
  split.
  - intros s entry R s'. subst s'. simpl. unfold cursor_in_range in R.
    rewrite slice0_nonneg by lia. split; [reflexivity|]. split; [|reflexivity].
    rewrite length_app, firstn_length_le by lia. cbn [List.length]. lia.
  - intros E1 E2 E3 E4. split; reflexivity.
Qed.

Lemma push_truncates_then_appends_witness :
  let s := push (-1) [VNull] initial in
  giftIdeasHistory (push (historyIndex s) [] s) = [[VNull]; []]
  /\ historyIndex (push (historyIndex s) [] s) = 1.
Proof.
  intros s.
  assert (R : cursor_in_range s) by (subst s; unfold cursor_in_range; simpl; lia).
  destruct (proj1 push_truncates_then_appends s [] R) as [H1 [_ H3]].
  split; [exact H1 | exact H3].
Defined.

(** C3, amended. In every history state, after a [push], after a [back]
    that moves the cursor and after a [forward] that moves the cursor,
    what is displayed is the history entry under the cursor; a [back] at
    a cursor of 0 or less and a [forward] at the last index or beyond
    change nothing at all. *)
Theorem displayed_entry_after_move (s : AppState) :
  cursor_in_range s ->
  (forall entry, shows_cursor_entry (push (historyIndex s) entry s))
  /\ (historyIndex s > 0 -> shows_cursor_entry (goBackInHistory s))
  /\ (historyIndex s < Z.of_nat (List.length (giftIdeasHistory s)) - 1 ->
      shows_cursor_entry (goForwardInHistory s))
  /\ (historyIndex s <= 0 -> goBackInHistory s = s)
  /\ (historyIndex s >= Z.of_nat (List.length (giftIdeasHistory s)) - 1 ->
      goForwardInHistory s = s).
Proof.
  intros R. split; [intros entry; apply push_shows_entry, R|].
  unfold shows_cursor_entry, goBackInHistory, goForwardInHistory.
  repeat split.
  - intros G. destruct (Z.gtb_spec (historyIndex s) 0); [reflexivity|lia].
  - intros G. destruct (Z.ltb_spec (historyIndex s)
        (Z.of_nat (List.length (giftIdeasHistory s)) - 1)); [reflexivity|lia].
  - intros G. destruct (Z.gtb_spec (historyIndex s) 0); [lia|reflexivity].
  - intros G. destruct (Z.ltb_spec (historyIndex s)
        (Z.of_nat (List.length (giftIdeasHistory s)) - 1)); [lia|reflexivity].
Qed.

Lemma displayed_entry_after_move_witness :
  let s := push 0 [] (push (-1) [VNull] initial) in
  shows_cursor_entry (goBackInHistory s).
Proof.
  intros s.
  assert (R : cursor_in_range s) by (subst s; unfold cursor_in_range; simpl; lia).
  apply (displayed_entry_after_move s R). reflexivity.
Defined.

Section AnyHost.
Context {host : Host}.

Lemma process_gift_not_null (gift : value) :
  is_nullish gift = false ->
  process_gift gift
  = (link <- processRetailerLink (field gift (lit "purchaseLink"))
                                 (field gift (lit "name")) ;;
     Normal (rewritten gift link)).
Proof. intros N. unfold process_gift, Get. rewrite N. reflexivity. Qed.


Lemma rewritable_processed (gift : value) :
  rewritable gift -> exists out, process_gift gift = Normal out.
Proof.
  intros [N [link P]]. rewrite (process_gift_not_null gift N), P. simpl. eauto.
Qed.



(** C9: when the call succeeds with a payload that is not an array, the
    fetch ends with the error message for an unexpected format (which is
    not empty) set, nothing displayed, the history and the cursor as they
    were, and the loading flag cleared. *)
Theorem non_array_payload_reports_error (c : Criteria)
  (callGeminiApi : jsstring -> api_result) (s : AppState) (payload : value) :
  callGeminiApi (mainPrompt c) = Resolved payload ->
  (forall elems, payload <> VArray elems) ->
  let s' := fetchGiftSuggestions c callGeminiApi s in
  error s'
  = Some (lit "Received unexpected data format from API. Please try again.")
  /\ error s' <> Some []
  /\ giftIdeasHistory s' = giftIdeasHistory s
  /\ historyIndex s' = historyIndex s
  /\ isLoading s' = false
  /\ giftIdeas s' = Some [].
Proof.
  intros G N s'. subst s'. unfold fetchGiftSuggestions, fetch_settle, fetch_try.
  rewrite G. simpl.
  destruct payload; try (repeat split; try reflexivity; discriminate).
  destruct (N elems eq_refl).
Qed.

(** Every session the page reaches is consistent. *)
Lemma fetch_settle_consistent (r : api_result) (s : AppState) :
  cursor_in_range s -> isGeneratingMessage s = false ->
  let s' := fetch_settle (historyIndex s) r s in
  cursor_in_range s' /\ (giftIdeas s <> None -> giftIdeas s' <> None)
  /\ isLoading s' = false /\ isGeneratingMessage s' = false.
Proof.
  intros R M. unfold fetch_settle.
  destruct (fetch_try (historyIndex s) r s) as [t|e] eqn:T;
    [|simpl; auto].
  unfold fetch_try in T. destruct r as [payload|m]; [|discriminate].
  simpl in T.
  destruct payload;
    try (injection T as <-; simpl; auto).
  destruct (mapM process_gift (slice0 elems 5)) as [published|];
    [|discriminate].
  simpl in T. injection T as <-.
  pose proof (push_in_range s published R) as R'.
  simpl. repeat split; try apply R'; auto. discriminate.
Qed.

Lemma reachable_consistent (s : Session) : reachable s -> consistent s.
Proof.
  induction 1 as [|s s' _ [R [D I]] S].
  - unfold consistent, cursor_in_range. simpl.
    repeat split; try lia. discriminate.
  - destruct S as [s c B O|s before after closureIndex r E|s c B O
                   |s before after r E|s B G|s B G];
      unfold consistent; simpl.
    + unfold busy in B. apply orb_false_iff in B. destruct B as [B1 B2].
      destruct (inflight s) as [|[k|] [|]]; try tauto;
        try (exfalso; intuition congruence).
      repeat split; try apply R; auto. discriminate.
    + rewrite E in I.
      destruct before as [|x [|]]; destruct after;
        try (destruct x); simpl in I; try tauto.
      destruct I as [I1 [I2 ->]].
      destruct (fetch_settle_consistent r (app s) R I2) as [R' [D' [L M]]].
      simpl. repeat split; try apply R'; auto.
    + unfold busy in B. apply orb_false_iff in B. destruct B as [B1 B2].
      destruct (inflight s) as [|[k|] [|]]; try tauto;
        try (exfalso; intuition congruence).
    + rewrite E in I.
      destruct before as [|x [|]]; destruct after;
        try (destruct x); simpl in I; try tauto.
      destruct I as [I1 I2]. unfold generate_settle.
      destruct (await r); simpl; repeat split; try apply R; auto.
    + pose proof (goBack_in_range (app s) R) as R'.
      repeat split; try apply R'.
      * unfold goBackInHistory.
        destruct (Z.gtb_spec (historyIndex (app s)) 0); [|exact D].
        simpl. apply at_index_in_range. unfold cursor_in_range in R. lia.
      * unfold busy in B. apply orb_false_iff in B.
        destruct (inflight s) as [|[k|] [|]]; try tauto;
          try (exfalso; intuition congruence).
        unfold goBackInHistory.
        destruct (historyIndex (app s) >? 0); exact I.
    + pose proof (goForward_in_range (app s) R) as R'.
      repeat split; try apply R'.
      * unfold goForwardInHistory.
        destruct (Z.ltb_spec (historyIndex (app s))
          (Z.of_nat (List.length (giftIdeasHistory (app s))) - 1));
          [|exact D].
        simpl. apply at_index_in_range. unfold cursor_in_range in R. lia.
      * unfold busy in B. apply orb_false_iff in B.
        destruct (inflight s) as [|[k|] [|]]; try tauto;
          try (exfalso; intuition congruence).
        unfold goForwardInHistory.
        destruct (historyIndex (app s) <? _); exact I.
Qed.

(** On the page a fetch runs from click to settlement with nothing in
    between. *)
Lemma reachable_fetch (s : AppState) (c : Criteria)
  (callGeminiApi : jsstring -> api_result) :
  reachable {| app := s; inflight := [] |} ->
  busy s = false -> is_empty (trim (occasion c)) = false ->
  reachable {| app := fetchGiftSuggestions c callGeminiApi s; inflight := [] |}.
Proof.
  intros R B O.
  apply reachable_step
    with (s := {| app := fetch_begin s;
                  inflight := [FetchCall (historyIndex s)] |}).
  - apply reachable_step with (s := {| app := s; inflight := [] |});
      [exact R|].
    exact (click_find {| app := s; inflight := [] |} c B O).
  - exact (settle_fetch
             {| app := fetch_begin s; inflight := [FetchCall (historyIndex s)] |}
             [] [] (historyIndex s) (callGeminiApi (mainPrompt c)) eq_refl).
Qed.

(** X18: whenever a step of the page moves the cursor, the page then
    displays the history entry under the cursor. *)
Lemma page_move_shows_entry (s s' : Session) :
  reachable s -> step s s' ->
  historyIndex (app s') <> historyIndex (app s) ->
  shows_cursor_entry (app s').
Proof.
  intros Rs S. destruct (reachable_consistent s Rs) as [R [D I]].
  destruct S as [s c B O|s before after closureIndex r E|s c B O
                 |s before after r E|s B G|s B G]; simpl; intros M.
  - destruct (M eq_refl).
  - rewrite E in I.
    destruct before as [|x [|]]; destruct after;
      try (destruct x); simpl in I; try tauto.
    destruct I as [_ [_ ->]]. revert M. unfold fetch_settle.
    destruct (fetch_try (historyIndex (app s)) r (app s)) as [t|e] eqn:T;
      [|simpl; intros M; destruct (M eq_refl)].
    unfold fetch_try in T. destruct r as [payload|m]; [|discriminate].
    simpl in T.
    destruct payload;
      try (injection T as <-; simpl; intros M; destruct (M eq_refl)).
    destruct (mapM process_gift (slice0 elems 5)) as [published|];
      [|discriminate].
    simpl in T. injection T as <-. intros _.
    exact (push_shows_entry (app s) published R).
  - destruct (M eq_refl).
  - revert M. unfold generate_settle. destruct (await r); simpl;
      intros M; destruct (M eq_refl).
  - unfold goBackInHistory in *.
    destruct (historyIndex (app s) >? 0); [reflexivity|destruct (M eq_refl)].
  - unfold goForwardInHistory in *.
    destruct (historyIndex (app s) <? _); [reflexivity|destruct (M eq_refl)].
Qed.

End AnyHost.

(** *** On the sample host *)

Import SampleHost Samples.

(** The end-to-end scenario of the specification: six entries returned,
    five published with rewritten links, one history entry. *)
Lemma birthday_fetch_publishes_five :
  let s' := fetchGiftSuggestions birthday_30
              (gateway_returns (VArray six_gifts)) initial in
  giftIdeas s' = Some five_published
  /\ giftIdeasHistory s' = [five_published]
  /\ historyIndex s' = 0
  /\ error s' = None /\ isLoading s' = false.
Proof. repeat split; reflexivity. Qed.



Lemma non_array_payload_reports_error_witness :
  let s' := fetchGiftSuggestions birthday_30
              (gateway_returns (VObject [(lit "ideas", VArray six_gifts)]))
              initial in
  error s'
  = Some (lit "Received unexpected data format from API. Please try again.")
  /\ error s' <> Some []
  /\ giftIdeasHistory s' = giftIdeasHistory initial
  /\ historyIndex s' = historyIndex initial
  /\ isLoading s' = false
  /\ giftIdeas s' = Some [].
Proof.
  apply (non_array_payload_reports_error (host := sample_host) birthday_30
           (gateway_returns (VObject [(lit "ideas", VArray six_gifts)]))
           initial (VObject [(lit "ideas", VArray six_gifts)]) eq_refl).
  discriminate.
Defined.

(** C3 as stated fails: the page reaches this state by a fetch that
    succeeds and a second one that fails. The cursor is at entry 0, the
    display was emptied when the second fetch began, and [back] and
    [forward], which do nothing here, leave it empty. *)
Lemma noop_navigation_shows_no_entry :
  reachable {| app := after_failed_refetch; inflight := [] |}
  /\ cursor_in_range after_failed_refetch
  /\ goBackInHistory after_failed_refetch = after_failed_refetch
  /\ goForwardInHistory after_failed_refetch = after_failed_refetch
  /\ giftIdeas after_failed_refetch = Some []
  /\ at_index (giftIdeasHistory after_failed_refetch)
              (historyIndex after_failed_refetch) = Some five_published
  /\ ~ shows_cursor_entry (goBackInHistory after_failed_refetch)
  /\ ~ shows_cursor_entry (goForwardInHistory after_failed_refetch).
Proof.
  split.
  { unfold after_failed_refetch.
    apply reachable_fetch; [|reflexivity|reflexivity].
    apply reachable_fetch; [|reflexivity|reflexivity].
    apply reachable_initial. }
  split; [unfold cursor_in_range; simpl; lia|].
  repeat split; try reflexivity; discriminate.
Qed.

End AppFacts.

(** ** More on the link rewriter *)

Module LinkRewriterMore.
Import JS LinkRewriter JSFacts LinkRewriterFacts.

Lemma searchTermOf_string (name : jsstring) :
  searchTermOf (VString name) = Encode name.
Proof. destruct name; reflexivity. Qed.

Lemma blank_empty : is_empty (trim []) = true.
Proof. reflexivity. Qed.

(** *** What the encoded search term is made of *)

Definition is_url_safe (c : code_unit) : bool :=
  is_uri_unescaped c || (c =? 37)%N.

Lemma hex_digit_unescaped (n : N) :
  (n < 16)%N -> is_uri_unescaped (hex_digit n) = true.
Proof.
  intros L.
  assert (C : In n (map N.of_nat (seq 0 16))).
  { apply in_map_iff. exists (N.to_nat n). split; [lia|].
    apply in_seq. lia. }
  simpl in C.
  repeat (destruct C as [<-|C]; [reflexivity|]). destruct C.
Qed.

Lemma percent_octet_safe (b : N) :
  (b < 256)%N -> forallb is_url_safe (percent_octet b) = true.
Proof.
  intros L. unfold percent_octet. cbn [forallb]. unfold is_url_safe at 1.
  change (is_uri_unescaped 37%N || (37 =? 37)%N) with true. cbn [andb].
  unfold is_url_safe.
  rewrite (hex_digit_unescaped (b / 16)), (hex_digit_unescaped (b mod 16)).
  - reflexivity.
  - apply N.mod_lt. discriminate.
  - apply N.Div0.div_lt_upper_bound. exact L.
Qed.

Lemma utf8_octets_bytes (cp : N) :
  (cp < 0x110000)%N -> Forall (fun b => (b < 256)%N) (utf8_octets cp).
Proof.
  intros L. unfold utf8_octets.
  assert (M : forall a, (a mod 64 < 64)%N)
    by (intros a; apply N.mod_lt; discriminate).
  destruct (N.ltb_spec cp 0x80); [repeat constructor; lia|].
  destruct (N.ltb_spec cp 0x800).
  { assert (cp / 64 < 32)%N by (apply N.Div0.div_lt_upper_bound; lia).
    pose proof (M cp). repeat constructor; lia. }
  destruct (N.ltb_spec cp 0x10000).
  { assert (cp / 4096 < 16)%N by (apply N.Div0.div_lt_upper_bound; lia).
    pose proof (M cp). pose proof (M (cp / 64)%N). repeat constructor; lia. }
  assert (cp / 262144 < 5)%N by (apply N.Div0.div_lt_upper_bound; lia).
  pose proof (M cp). pose proof (M (cp / 64)%N). pose proof (M (cp / 4096)%N).
  repeat constructor; lia.
Qed.

Lemma percent_encode_safe (cp : N) :
  (cp < 0x110000)%N -> forallb is_url_safe (percent_encode cp) = true.
Proof.
  intros L. unfold percent_encode.
  pose proof (utf8_octets_bytes cp L) as B.
  induction B as [|b bs Hb _ IH]; [reflexivity|].
  cbn [flat_map]. rewrite forallb_app, (percent_octet_safe b Hb), IH.
  reflexivity.
Qed.

Lemma pair_code_point_bound (c d : code_unit) :
  is_leading_surrogate c = true -> is_trailing_surrogate d = true ->
  (surrogate_pair_code_point c d < 0x110000)%N.
Proof.
  unfold is_leading_surrogate, is_trailing_surrogate, surrogate_pair_code_point.
  rewrite !andb_true_iff, !N.leb_le. lia.
Qed.

Lemma Encode_safe (s r : jsstring) :
  Forall (fun c => (c < 0x10000)%N) s ->
  Encode s = Normal r -> forallb is_url_safe r = true.
Proof.
  assert (G : forall n s r, (List.length s <= n)%nat ->
    Forall (fun c => (c < 0x10000)%N) s ->
    Encode s = Normal r -> forallb is_url_safe r = true).
  { clear s r. induction n as [|n IH]; intros s r L B.
    - destruct s; [|simpl in L; lia]. simpl. intros E; injection E as <-.
      reflexivity.
    - destruct s as [|c rest];
        [simpl; intros E; injection E as <-; reflexivity|].
      simpl in L. inversion B as [|c' rest' Hc Hrest]; subst.
      cbn [Encode]. destruct (is_uri_unescaped c) eqn:U.
      + destruct (Encode rest) as [r'|] eqn:E'; [|discriminate].
        simpl. intros E; injection E as <-. cbn [forallb].
        unfold is_url_safe at 1. rewrite U. simpl.
        apply (IH rest r'); [lia | exact Hrest | exact E'].
      + destruct (is_trailing_surrogate c); [discriminate|].
        destruct (is_leading_surrogate c) eqn:Lc.
        * destruct rest as [|d rest2]; [discriminate|].
          destruct (is_trailing_surrogate d) eqn:Td; [|discriminate].
          destruct (Encode rest2) as [r'|] eqn:E'; [|discriminate].
          simpl. intros E; injection E as <-.
          inversion Hrest; subst. simpl in L.
          rewrite forallb_app,
            (percent_encode_safe _ (pair_code_point_bound c d Lc Td)).
          apply (IH rest2 r'); [lia | assumption | exact E'].
        * destruct (Encode rest) as [r'|] eqn:E'; [|discriminate].
          simpl. intros E; injection E as <-.
          rewrite forallb_app, (percent_encode_safe c) by lia.
          apply (IH rest r'); [lia | exact Hrest | exact E']. }
  exact (G (List.length s) s r (le_n _)).
Qed.

(** X4: the search term made from a gift name that is a string holds only
    ASCII letters, digits, [-_.!~*'()] and the percent sign of an escape;
    so a gift name cannot put an [&], [=], [?], [#] or [/] of its own into
    a rewritten URL. *)
Theorem search_term_is_url_safe (name searchTerm : jsstring) :
  Forall (fun c => (c < 0x10000)%N) name ->
  searchTermOf (VString name) = Normal searchTerm ->
  forallb is_url_safe searchTerm = true.
Proof. rewrite searchTermOf_string. apply Encode_safe. Qed.

Lemma search_term_is_url_safe_witness :
  searchTermOf (VString (lit "Mug&tag=other #1"))
  = Normal (lit "Mug%26tag%3Dother%20%231")
  /\ forallb is_url_safe (lit "Mug%26tag%3Dother%20%231") = true.
Proof.
  split; [reflexivity|].
  apply (search_term_is_url_safe (lit "Mug&tag=other #1")
           (lit "Mug%26tag%3Dother%20%231")); [|reflexivity].
  apply Forall_forall. intros c I. simpl in I.
  repeat (destruct I as [<-|I]; [reflexivity|]). destruct I.
Defined.

Section AnyHost.
Context {host : Host}.

Lemma dispatch_nonempty (link searchTerm : jsstring) :
  is_empty (trim link) = false -> dispatch link searchTerm <> [].
Proof.
  intros B. unfold dispatch.
  destruct (url_hostname link) as [h|]; [|discriminate].
  destruct (existsb _ amazonDomains); [discriminate|].
  destruct (includes h (lit "etsy.com")); [discriminate|].
  destruct (includes h (lit "target.com")); [discriminate|].
  destruct (includes h (lit "bestbuy.com")); [discriminate|].
  intros ->. discriminate B.
Qed.

Lemma rewriter_result_nonempty (originalLink giftName : value) (r : jsstring) :
  processRetailerLink originalLink giftName = Normal r -> r <> [].
Proof.
  destruct originalLink as [| | | |link| |];
    try (intros E; injection E as <-; discriminate).
  unfold processRetailerLink. destruct (is_empty (trim link)) eqn:B.
  - intros E; injection E as <-; discriminate.
  - destruct (searchTermOf giftName) as [t|]; [|discriminate]. simpl.
    intros E; injection E as <-. apply dispatch_nonempty, B.
Qed.

(** X5: the rewriter never returns the empty string: what it returns is
    the sentinel, a search URL, or the non-blank link it was given. *)
Theorem rewriter_never_empty (originalLink giftName : value) :
  processRetailerLink originalLink giftName <> Normal [].
Proof.
  intros E. exact (rewriter_result_nonempty originalLink giftName [] E eq_refl).
Qed.

(** X6: on a link and a gift name that are both strings, the rewriter
    throws exactly when the link is not blank and the gift name holds an
    unpaired surrogate, and what it throws is a URIError. *)
Theorem rewriter_throws_on_strings_iff (link name : jsstring) (e : js_error) :
  processRetailerLink (VString link) (VString name) = Throw e <->
  is_empty (trim link) = false /\ well_formed name = false /\ e = URIError.
Proof.
  unfold processRetailerLink. rewrite searchTermOf_string.
  destruct (Encode_well_formed name) as [W1 W2].
  destruct (is_empty (trim link)).
  - split; [discriminate | intros [B _]; discriminate B].
  - destruct (well_formed name).
    + destruct (W1 eq_refl) as [r ->]. simpl.
      split; [discriminate | intros [_ [W _]]; discriminate W].
    + rewrite (W2 eq_refl). simpl. split.
      * intros E; injection E as <-. auto.
      * intros [_ [_ ->]]. reflexivity.
Qed.

(** The parser reads the hostname [h] back from an https URL built on it. *)
Definition reads_back (h : jsstring) : Prop :=
  forall path, url_hostname (lit "https://" ++ h ++ lit "/" ++ path) = Some h.

(** X7: the result list runs the rewriter again on links that were
    already rewritten. On a host whose parser reads back the hostname of
    an https URL built on the link's hostname or on one of the three
    fixed retailer hostnames, rewriting the rewritten link with the same
    gift name gives it back unchanged. *)
Theorem rewriting_again_changes_nothing (link : jsstring) (giftName : value)
  (searchTerm r : jsstring) :
  searchTermOf giftName = Normal searchTerm ->
  (forall h, url_hostname link = Some h -> reads_back h) ->
  reads_back (lit "www.etsy.com") ->
  reads_back (lit "www.target.com") ->
  reads_back (lit "www.bestbuy.com") ->
  processRetailerLink (VString link) giftName = Normal r ->
  processRetailerLink (VString r) giftName = Normal r.
Proof.
  intros T RH RE RT RB P.
  assert (S : processRetailerLink (VString sentinel) giftName = Normal sentinel).
  { assert (U : url_hostname sentinel = None).
    { destruct (url_hostname sentinel) as [h|] eqn:E; [|reflexivity].
      apply url_hostname_scheme in E. destruct E as [E|[]]. discriminate E. }
    unfold processRetailerLink.
    change (is_empty (trim sentinel)) with false. cbv iota.
    rewrite T. unfold bind, dispatch. rewrite U. reflexivity. }
  unfold processRetailerLink in P.
  destruct (is_empty (trim link)) eqn:B; [injection P as <-; exact S|].
  rewrite T in P. simpl in P. injection P as <-. unfold dispatch.
  destruct (url_hostname link) as [h|] eqn:U; [|exact S].
  specialize (RH h eq_refl).
  destruct (existsb (fun domain => includes h domain) amazonDomains) eqn:A.
  { specialize (RH (lit "s?k=" ++ searchTerm ++ lit "&tag=" ++ AMAZON_ASSOCIATE_TAG)).
    rewrite <- !app_assoc.
    change (lit "/s?k=" ++ searchTerm ++ lit "&tag=" ++ AMAZON_ASSOCIATE_TAG)
      with (lit "/" ++ lit "s?k=" ++ searchTerm ++ lit "&tag="
            ++ AMAZON_ASSOCIATE_TAG).
    rewrite (rewriter_on_url _ h giftName searchTerm RH T).
    unfold dispatch. rewrite RH, A. rewrite <- !app_assoc. reflexivity. }
  destruct (includes h (lit "etsy.com")) eqn:E1.
  { specialize (RE (lit "search?q=" ++ searchTerm)).
    change (lit "https://www.etsy.com/search?q=" ++ searchTerm)
      with (lit "https://" ++ lit "www.etsy.com" ++ lit "/"
            ++ lit "search?q=" ++ searchTerm).
    rewrite (rewriter_on_url _ _ giftName searchTerm RE T).
    unfold dispatch. rewrite RE. reflexivity. }
  destruct (includes h (lit "target.com")) eqn:E2.
  { specialize (RT (lit "s?searchTerm=" ++ searchTerm)).
    change (lit "https://www.target.com/s?searchTerm=" ++ searchTerm)
      with (lit "https://" ++ lit "www.target.com" ++ lit "/"
            ++ lit "s?searchTerm=" ++ searchTerm).
    rewrite (rewriter_on_url _ _ giftName searchTerm RT T).
    unfold dispatch. rewrite RT. reflexivity. }
  destruct (includes h (lit "bestbuy.com")) eqn:BB.
  { specialize (RB (lit "site/searchpage.jsp?st=" ++ searchTerm)).
    change (lit "https://www.bestbuy.com/site/searchpage.jsp?st=" ++ searchTerm)
      with (lit "https://" ++ lit "www.bestbuy.com" ++ lit "/"
            ++ lit "site/searchpage.jsp?st=" ++ searchTerm).
    rewrite (rewriter_on_url _ _ giftName searchTerm RB T).
    unfold dispatch. rewrite RB. reflexivity. }
  rewrite (rewriter_on_url link h giftName searchTerm U T).
  unfold dispatch. rewrite U, A, E1, E2, BB. reflexivity.
Qed.

End AnyHost.

(** *** On the sample host *)

Import SampleHost.

Definition host_chars (h : jsstring) : bool :=
  forallb (fun c => negb (existsb (N.eqb c) (lit "/?#:"))) h.

Lemma host_part_app (h rest : jsstring) :
  host_chars h = true -> host_part (h ++ lit "/" ++ rest) = h.
Proof.
  induction h as [|c h IH]; [reflexivity|].
  unfold host_chars. cbn [forallb]. rewrite andb_true_iff, negb_true_iff.
  intros [C H]. cbn [app host_part]. rewrite C. f_equal. apply IH, H.
Qed.

Lemma sample_reads_back (h : jsstring) :
  h <> [] -> host_chars h = true -> reads_back (host := sample_host) h.
Proof.
  intros N C path.
  change (url_hostname (lit "https://" ++ h ++ lit "/" ++ path))
    with (if is_empty (host_part (h ++ lit "/" ++ path)) then None
          else Some (host_part (h ++ lit "/" ++ path))).
  rewrite (host_part_app h path C). destruct h; [destruct (N eq_refl)|].
  reflexivity.
Qed.

Lemma rewriter_sentinel_iff_witness :
  lit "#" = sentinel
  <-> (forall link, VString (lit "not a url") <> VString link)
      \/ (exists link, VString (lit "not a url") = VString link
                       /\ url_hostname link = None).
Proof.
  apply (rewriter_sentinel_iff (host := sample_host)
           (VString (lit "not a url")) (VString (lit "Mug")) (lit "#")).
  reflexivity.
Defined.

Lemma passthrough_when_encodable_witness :
  processRetailerLink (VString (lit "https://brandsite.example/product/123"))
                      (VString (lit "Tea"))
  = Normal (lit "https://brandsite.example/product/123").
Proof.
  assert (N : forall d, includes (lit "brandsite.example") d = false ->
                        ~ contains (lit "brandsite.example") d).
  { intros d F C. apply includes_spec in C. rewrite C in F. discriminate F. }
  apply (passthrough_when_encodable (host := sample_host)
           (lit "https://brandsite.example/product/123")
           (lit "brandsite.example") (VString (lit "Tea")) (lit "Tea")
           eq_refl).
  - intros d I. apply N. simpl in I.
    repeat (destruct I as [<-|I]; [reflexivity|]). destruct I.
  - apply N. reflexivity.
  - apply N. reflexivity.
  - apply N. reflexivity.
  - reflexivity.
Defined.

Lemma rewriting_again_changes_nothing_witness :
  processRetailerLink
    (VString (lit "https://www.amazon.com/s?k=Lego%20set&tag=realstory-20"))
    (VString (lit "Lego set"))
  = Normal (lit "https://www.amazon.com/s?k=Lego%20set&tag=realstory-20").
Proof.
  apply (rewriting_again_changes_nothing (host := sample_host)
           (lit "https://www.amazon.com/dp/B01") (VString (lit "Lego set"))
           (lit "Lego%20set")
           (lit "https://www.amazon.com/s?k=Lego%20set&tag=realstory-20")
           eq_refl).
  - intros h E. injection E as <-.
    apply sample_reads_back; [discriminate | reflexivity].
  - apply sample_reads_back; [discriminate | reflexivity].
  - apply sample_reads_back; [discriminate | reflexivity].
  - apply sample_reads_back; [discriminate | reflexivity].
  - reflexivity.
Defined.

End LinkRewriterMore.

(** ** The published entries and the result list *)

Module RenderFacts.
Import JS LinkRewriter App Render JSFacts LinkRewriterFacts LinkRewriterMore.

Lemma jsstring_eqb_refl (s : jsstring) : jsstring_eqb s s = true.
Proof. apply jsstring_eqb_eq. reflexivity. Qed.

Lemma jsstring_eqb_neq (s t : jsstring) : s <> t -> jsstring_eqb s t = false.
Proof.
  intros N. destruct (jsstring_eqb s t) eqn:E; [|reflexivity].
  apply jsstring_eqb_eq in E. destruct (N E).
Qed.

(** Setting a property and reading it back; the other properties stay. *)
Lemma lookup_set_prop_same (key : jsstring) (w : value)
  (props : list (jsstring * value)) :
  lookup key (set_prop key w props) = Some w.
Proof.
  induction props as [|[k v] rest IH]; simpl.
  - rewrite jsstring_eqb_refl. reflexivity.
  - destruct (jsstring_eqb k key) eqn:E; simpl; rewrite E; auto.
Qed.

Lemma lookup_set_prop_other (key other : jsstring) (w : value)
  (props : list (jsstring * value)) :
  other <> key -> lookup other (set_prop key w props) = lookup other props.
Proof.
  intros N. induction props as [|[k v] rest IH]; simpl.
  - rewrite (jsstring_eqb_neq key other) by congruence. reflexivity.
  - destruct (jsstring_eqb k key) eqn:E; simpl.
    + apply jsstring_eqb_eq in E. subst k.
      rewrite (jsstring_eqb_neq key other) by congruence. reflexivity.
    + destruct (jsstring_eqb k other); auto.
Qed.

(** X9: the entry published for a gift carries the rewritten link as its
    [purchaseLink]; when the gift is an object, every other property
    ([name], [description], whatever else the API sent) reads as before. *)
Theorem rewritten_replaces_only_the_link (gift : value) (link : jsstring) :
  field (rewritten gift link) (lit "purchaseLink") = VString link
  /\ forall props key,
       gift = VObject props -> key <> lit "purchaseLink" ->
       field (rewritten gift link) key = field gift key.
Proof.
  unfold rewritten, field. split.
  - rewrite lookup_set_prop_same. reflexivity.
  - intros props key -> N. simpl.
    rewrite (lookup_set_prop_other _ _ _ _ N). reflexivity.
Qed.

Section AnyHost.
Context {host : Host}.



End AnyHost.

Import SampleHost Samples.


End RenderFacts.

(** ** More on the fetch and the history *)

Module AppMore.
Import JS LinkRewriter Prompt App AppFacts.

Local Open Scope Z_scope.

Lemma at_index_push_prefix {A} (l : list A) (e : A) (n : nat) (i : Z) :
  0 <= i < Z.of_nat n -> (n <= List.length l)%nat ->
  at_index (firstn n l ++ [e]) i = at_index l i.
Proof.
  intros I L. unfold at_index. destruct (Z.ltb_spec i 0) as [N|_]; [lia|].
  rewrite nth_error_app1 by (rewrite length_firstn; lia).
  rewrite nth_error_firstn.
  destruct (Nat.ltb_spec (Z.to_nat i) n); [reflexivity | lia].
Qed.

(** X14: with the entry under the cursor displayed and no error shown,
    going back and then forward, or forward and then back, returns to the
    very same state. *)
Theorem back_and_forward_undo_each_other (s : AppState) :
  cursor_in_range s -> shows_cursor_entry s -> error s = None ->
  (historyIndex s > 0 -> goForwardInHistory (goBackInHistory s) = s)
  /\ (0 <= historyIndex s < Z.of_nat (List.length (giftIdeasHistory s)) - 1 ->
      goBackInHistory (goForwardInHistory s) = s).
Proof.
  unfold cursor_in_range, shows_cursor_entry.
  destruct s as [ideas loading err card generating history index].
  simpl. intros R D ->. split; intros G.
  - unfold goBackInHistory. simpl.
    destruct (Z.gtb_spec index 0) as [_|N]; [|lia].
    unfold goForwardInHistory. simpl.
    destruct (Z.ltb_spec (index - 1) (Z.of_nat (List.length history) - 1))
      as [_|N]; [|lia].
    unfold setError, setGiftIdeas, setHistoryIndex. simpl.
    replace (index - 1 + 1) with index by lia. rewrite <- D. reflexivity.
  - unfold goForwardInHistory. simpl.
    destruct (Z.ltb_spec index (Z.of_nat (List.length history) - 1))
      as [_|N]; [|lia].
    unfold goBackInHistory. simpl.
    destruct (Z.gtb_spec (index + 1) 0) as [_|N]; [|lia].
    unfold setError, setGiftIdeas, setHistoryIndex. simpl.
    replace (index + 1 - 1) with index by lia. rewrite <- D. reflexivity.
Qed.

Lemma back_and_forward_undo_each_other_witness :
  let s := push 0 [] (push (-1) [VNull] initial) in
  goForwardInHistory (goBackInHistory s) = s.
Proof.
  intros s.
  assert (R : cursor_in_range s) by (subst s; unfold cursor_in_range; simpl; lia).
  apply (back_and_forward_undo_each_other s R); reflexivity.
Defined.

(** X15: a push keeps every entry up to the cursor where it was, puts the
    new entry right after the cursor and leaves nothing behind it: what
    lay beyond the cursor is gone, and [forward] has nowhere to go. *)
Theorem push_keeps_entries_up_to_cursor (s : AppState) (entry : list value) :
  cursor_in_range s ->
  let s' := push (historyIndex s) entry s in
  (forall i, 0 <= i <= historyIndex s ->
     at_index (giftIdeasHistory s') i = at_index (giftIdeasHistory s) i)
  /\ at_index (giftIdeasHistory s') (historyIndex s + 1) = Some entry
  /\ Z.of_nat (List.length (giftIdeasHistory s')) = historyIndex s + 2
  /\ goForwardInHistory s' = s'.
Proof.
  intros R. unfold cursor_in_range in R. cbv zeta. simpl.
  rewrite slice0_nonneg by lia.
  assert (L : List.length (firstn (Z.to_nat (historyIndex s + 1))
                             (giftIdeasHistory s))
              = Z.to_nat (historyIndex s + 1))
    by (apply firstn_length_le; lia).
  repeat split.
  - intros i I. apply at_index_push_prefix; lia.
  - apply at_index_last; [lia | exact L].
  - rewrite length_app, L. cbn [List.length]. lia.
  - unfold goForwardInHistory. simpl. rewrite slice0_nonneg by lia.
    rewrite length_app, L. cbn [List.length].
    destruct (Z.ltb_spec (historyIndex s + 1)
                (Z.of_nat (Z.to_nat (historyIndex s + 1) + 1) - 1));
      [lia | reflexivity].
Qed.

Lemma push_keeps_entries_up_to_cursor_witness :
  let s := goBackInHistory (push 0 [] (push (-1) [VNull] initial)) in
  at_index (giftIdeasHistory (push (historyIndex s) [VBool true] s)) 1
  = Some [VBool true]
  /\ goForwardInHistory (push (historyIndex s) [VBool true] s)
     = push (historyIndex s) [VBool true] s.
Proof.
  intros s.
  assert (R : cursor_in_range s) by (subst s; unfold cursor_in_range; simpl; lia).
  destruct (push_keeps_entries_up_to_cursor s [VBool true] R)
    as [_ [H2 [_ H4]]].
  split; [exact H2 | exact H4].
Defined.

Section AnyHost.
Context {host : Host}.

Lemma process_gift_rewritable (gift out : value) :
  process_gift gift = Normal out -> rewritable gift.
Proof.
  unfold process_gift, Get, rewritable.
  destruct (is_nullish gift); [discriminate|]. simpl.
  destruct (processRetailerLink _ _) as [link|]; [|discriminate].
  intros _. eauto.
Qed.

Lemma mapM_rewritable (l out : list value) :
  mapM process_gift l = Normal out -> Forall rewritable l.
Proof.
  intros M. apply mapM_Normal in M.
  induction M as [|gift o l' out' P _ IH]; constructor; auto.
  exact (process_gift_rewritable gift o P).
Qed.

(** The two ways a fetch on an array ends. *)
Lemma fetch_on_array (c : Criteria) (callGeminiApi : jsstring -> api_result)
  (s : AppState) (elems : list value) :
  callGeminiApi (mainPrompt c) = Resolved (VArray elems) ->
  fetchGiftSuggestions c callGeminiApi s
  = match mapM process_gift (firstn 5 elems) with
    | Normal published =>
        setIsLoading false (push (historyIndex s) published (fetch_begin s))
    | Throw err =>
        setIsLoading false (setError (Some (fetch_failed err)) (fetch_begin s))
    end.
Proof.
  intros G. unfold fetchGiftSuggestions, fetch_settle, fetch_try. rewrite G.
  cbn [await bind]. rewrite slice0_nonneg by lia.
  change (Z.to_nat 5) with 5%nat.
  destruct (mapM process_gift (firstn 5 elems)); reflexivity.
Qed.

(** X10: a fetch that resolves to an array ends without an error exactly
    when none of its first five entries is [null] and the link rewriter
    returns on each of them. *)
Theorem fetch_succeeds_iff_entries_rewritable (c : Criteria)
  (callGeminiApi : jsstring -> api_result) (s : AppState)
  (elems : list value) :
  callGeminiApi (mainPrompt c) = Resolved (VArray elems) ->
  error (fetchGiftSuggestions c callGeminiApi s) = None
  <-> Forall rewritable (firstn 5 elems).
Proof.
  intros G. rewrite (fetch_on_array c callGeminiApi s elems G).
  destruct (mapM process_gift (firstn 5 elems)) as [published|err] eqn:M.
  - split; [intros _; exact (mapM_rewritable _ _ M) | reflexivity].
  - split; [discriminate|]. intros F.
    destruct (mapM_total process_gift (firstn 5 elems)) as [r E].
    + eapply Forall_impl; [|exact F]. intros g. apply rewritable_processed.
    + rewrite E in M. discriminate M.
Qed.

(** X11: a fetch that ends with an error, for whatever reason (a rejected
    call, a payload that is no array, an entry that cannot be processed),
    has displayed nothing and has left the history and the cursor as they
    were; the loading flag is cleared. *)
Theorem failed_fetch_leaves_history_alone (c : Criteria)
  (callGeminiApi : jsstring -> api_result) (s : AppState) :
  error (fetchGiftSuggestions c callGeminiApi s) <> None ->
  let s' := fetchGiftSuggestions c callGeminiApi s in
  giftIdeas s' = Some []
  /\ giftIdeasHistory s' = giftIdeasHistory s
  /\ historyIndex s' = historyIndex s
  /\ isLoading s' = false.
Proof.
  unfold fetchGiftSuggestions, fetch_settle, fetch_try.
  destruct (callGeminiApi (mainPrompt c)) as [payload|m]; simpl;
    [|intros _; repeat split].
  destruct payload; simpl; try (intros _; repeat split; reflexivity).
  destruct (mapM process_gift (slice0 elems 5)); simpl.
  - intros N. destruct (N eq_refl).
  - intros _. repeat split.
Qed.

(** X12: when the call is rejected, the error shown is the fixed wording
    around the message of the rejection, which it holds word for word,
    for instance the status of a failed request. *)
Theorem rejected_fetch_shows_its_message (c : Criteria)
  (callGeminiApi : jsstring -> api_result) (s : AppState) (m : jsstring) :
  callGeminiApi (mainPrompt c) = Rejected m ->
  error (fetchGiftSuggestions c callGeminiApi s)
  = Some (lit "Failed to fetch gift suggestions: " ++ m
          ++ lit ". Please try again.")
  /\ exists text, error (fetchGiftSuggestions c callGeminiApi s) = Some text
                  /\ contains text m.
Proof.
  intros G. unfold fetchGiftSuggestions, fetch_settle, fetch_try.
  rewrite G. simpl. split; [reflexivity|].
  eexists. split; [reflexivity|].
  exists (lit "Failed to fetch gift suggestions: "), (lit ". Please try again.").
  reflexivity.
Qed.

(** X13: what the array holds after its fifth entry has no effect on the
    fetch, be it an entry that could not be processed. *)
Theorem fetch_ignores_entries_after_fifth (c : Criteria)
  (api1 api2 : jsstring -> api_result) (s : AppState)
  (elems1 elems2 : list value) :
  api1 (mainPrompt c) = Resolved (VArray elems1) ->
  api2 (mainPrompt c) = Resolved (VArray elems2) ->
  firstn 5 elems1 = firstn 5 elems2 ->
  fetchGiftSuggestions c api1 s = fetchGiftSuggestions c api2 s.
Proof.
  intros G1 G2 E.
  rewrite (fetch_on_array c api1 s elems1 G1),
    (fetch_on_array c api2 s elems2 G2), E.
  reflexivity.
Qed.

(** X16: generating a card message never touches the gift ideas, the
    history, the cursor or the fetch's loading flag. It ends with its own
    flag cleared, and with the returned text as the message and no error,
    or with the fixed apology as the message and the error built around
    the message of the rejection. *)
Theorem card_message_leaves_gifts_alone (c : Criteria)
  (callGeminiApi : jsstring -> api_result) (s : AppState) :
  let s' := generateCardMessage c callGeminiApi s in
  giftIdeas s' = giftIdeas s
  /\ giftIdeasHistory s' = giftIdeasHistory s
  /\ historyIndex s' = historyIndex s
  /\ isLoading s' = isLoading s
  /\ isGeneratingMessage s' = false
  /\ match callGeminiApi (fullMessagePrompt c) with
     | Resolved text => cardMessage s' = text /\ error s' = None
     | Rejected m =>
         cardMessage s'
         = VString (lit "Error generating message. Please try again.")
         /\ error s'
            = Some (lit "Failed to generate card message: " ++ m ++ lit ".")
     end.
Proof.
  unfold generateCardMessage, generate_settle.
  destruct (callGeminiApi (fullMessagePrompt c)); simpl; repeat split.
Qed.

(** X17: in every session the page reaches, the cursor is within
    [-1, length - 1], something is displayed, at most one call is in
    flight, the controls are disabled exactly while one is, and a fetch
    in flight runs under the loading flag with the cursor its callback
    closed over still current. *)
Theorem page_invariants (s : Session) :
  reachable s ->
  cursor_in_range (app s)
  /\ giftIdeas (app s) <> None
  /\ (List.length (inflight s) <= 1)%nat
  /\ (busy (app s) = true <-> inflight s <> [])
  /\ (forall closureIndex, In (FetchCall closureIndex) (inflight s) ->
        closureIndex = historyIndex (app s) /\ isLoading (app s) = true).
Proof.
  intros Rs. destruct (reachable_consistent s Rs) as [R [D I]].
  split; [exact R|]. split; [exact D|]. unfold busy.
  destruct (inflight s) as [|[k|] [|]]; simpl in I; try contradiction.
  - destruct I as [-> ->]. simpl. split; [lia|]. split.
    + split; [discriminate | intros N; destruct (N eq_refl)].
    + intros closureIndex [].
  - destruct I as [-> [-> ->]]. simpl. split; [lia|]. split.
    + split; [discriminate | reflexivity].
    + intros closureIndex [E|[]]. injection E as <-. auto.
  - destruct I as [-> ->]. simpl. split; [lia|]. split.
    + split; [discriminate | reflexivity].
    + intros closureIndex [E|[]]. discriminate E.
Qed.

End AnyHost.

(** *** On the sample host *)

Import SampleHost Samples.

Lemma fetch_succeeds_iff_entries_rewritable_witness :
  error (fetchGiftSuggestions birthday_30
           (gateway_returns (VArray [VNull])) initial) = None
  <-> Forall rewritable (firstn 5 [VNull]).
Proof.
  apply (fetch_succeeds_iff_entries_rewritable (host := sample_host)
           birthday_30 (gateway_returns (VArray [VNull])) initial [VNull]).
  reflexivity.
Defined.

Lemma failed_fetch_leaves_history_alone_witness :
  giftIdeas after_failed_refetch = Some []
  /\ giftIdeasHistory after_failed_refetch = [five_published]
  /\ historyIndex after_failed_refetch = 0
  /\ isLoading after_failed_refetch = false.
Proof.
  refine (failed_fetch_leaves_history_alone (host := sample_host)
            birthday_30 gateway_http_500
            (fetchGiftSuggestions birthday_30
               (gateway_returns (VArray six_gifts)) initial) _).
  discriminate.
Defined.

Lemma rejected_fetch_shows_its_message_witness :
  error (fetchGiftSuggestions birthday_30 gateway_http_500 initial)
  = Some (lit "Failed to fetch gift suggestions: API error: 500 Internal Server Error - Unknown error. Please try again.").
Proof.
  apply (rejected_fetch_shows_its_message (host := sample_host) birthday_30
           gateway_http_500 initial
           (lit "API error: 500 Internal Server Error - Unknown error")).
  reflexivity.
Defined.

Lemma fetch_ignores_entries_after_fifth_witness :
  fetchGiftSuggestions birthday_30 (gateway_returns (VArray six_gifts)) initial
  = fetchGiftSuggestions birthday_30
      (gateway_returns (VArray (firstn 5 six_gifts ++ [VNull; VNull]))) initial.
Proof.
  apply (fetch_ignores_entries_after_fifth (host := sample_host) birthday_30
           (gateway_returns (VArray six_gifts))
           (gateway_returns (VArray (firstn 5 six_gifts ++ [VNull; VNull])))
           initial six_gifts (firstn 5 six_gifts ++ [VNull; VNull]));
    reflexivity.
Defined.

Lemma reachable_mid_fetch :
  reachable {| app := fetch_begin initial; inflight := [FetchCall (-1)] |}.
Proof.
  apply reachable_step with (s := {| app := initial; inflight := [] |});
    [apply reachable_initial|].
  exact (click_find {| app := initial; inflight := [] |} birthday_30
           eq_refl eq_refl).
Qed.

Lemma page_invariants_witness :
  let s := {| app := fetch_begin initial; inflight := [FetchCall (-1)] |} in
  cursor_in_range (app s)
  /\ giftIdeas (app s) <> None
  /\ (List.length (inflight s) <= 1)%nat
  /\ (busy (app s) = true <-> inflight s <> [])
  /\ (forall closureIndex, In (FetchCall closureIndex) (inflight s) ->
        closureIndex = historyIndex (app s) /\ isLoading (app s) = true).
Proof.
  exact (page_invariants (host := sample_host) _ reachable_mid_fetch).
Defined.

Lemma reachable_after_two_fetches :
  reachable {| app := after_two_fetches; inflight := [] |}.
Proof.
  unfold after_two_fetches.
  apply reachable_fetch; [|reflexivity|reflexivity].
  apply reachable_fetch; [|reflexivity|reflexivity].
  apply reachable_initial.
Qed.

Lemma page_move_shows_entry_witness :
  shows_cursor_entry (goBackInHistory after_two_fetches).
Proof.
  apply (page_move_shows_entry (host := sample_host)
           {| app := after_two_fetches; inflight := [] |}
           {| app := goBackInHistory after_two_fetches; inflight := [] |}
           reachable_after_two_fetches).
  - exact (click_back {| app := after_two_fetches; inflight := [] |}
             eq_refl eq_refl).
  - discriminate.
Defined.

End AppMore.

(** ** The form helpers *)

Module FormFacts.
Import JS Prompt Form.

Lemma numericValue_app (a b : jsstring) :
  numericValue (a ++ b) = numericValue a ++ numericValue b.
Proof. apply filter_app. Qed.

Lemma numericValue_of_digits (value : jsstring) :
  forallb is_digit value = true -> numericValue value = value.
Proof.
  induction value as [|c value IH]; [reflexivity|].
  cbn [forallb]. rewrite andb_true_iff. intros [C D].
  unfold numericValue. cbn [filter]. rewrite C. f_equal. apply IH, D.
Qed.

Lemma numericValue_digits (value : jsstring) :
  forallb is_digit (numericValue value) = true.
Proof.
  induction value as [|c value IH]; [reflexivity|].
  unfold numericValue. cbn [filter]. destruct (is_digit c) eqn:C; [|exact IH].
  cbn [forallb]. rewrite C. exact IH.
Qed.

(** X19: what a numeric input hands to its setter holds digits only,
    whatever was typed or pasted; filtering it again changes nothing, and
    a value is left as it is exactly when it holds only digits. *)
Theorem numeric_input_keeps_only_digits (value : jsstring) :
  forallb is_digit (numericValue value) = true
  /\ numericValue (numericValue value) = numericValue value
  /\ (numericValue value = value <-> forallb is_digit value = true).
Proof.
  split; [apply numericValue_digits|].
  split; [apply numericValue_of_digits, numericValue_digits|].
  split; [|apply numericValue_of_digits].
  intros E. rewrite <- E. apply numericValue_digits.
Qed.

(** X20: the price inputs show the amount behind a dollar sign, and the
    handler reads the amount back out of what is shown: with digits in
    the state, the shown text maps back to the state, and a character
    typed after it is appended when it is a digit and dropped otherwise;
    the other fields are not touched. *)
Theorem typing_in_the_min_price_field (c : Criteria) (ch : code_unit) :
  forallb is_digit (minPrice c) = true ->
  handleMinPriceChange (price_shown (minPrice c)) c = c
  /\ let c' := handleMinPriceChange (price_shown (minPrice c) ++ [ch]) c in
     minPrice c' = (if is_digit ch then minPrice c ++ [ch] else minPrice c)
     /\ without_price c' = without_price c
     /\ maxPrice c' = maxPrice c.
Proof.
  intros D.
  assert (S : numericValue (price_shown (minPrice c)) = minPrice c).
  { unfold price_shown. destruct (minPrice c) as [|d p] eqn:E; [reflexivity|].
    cbn [nonempty is_empty negb]. rewrite numericValue_app.
    rewrite (numericValue_of_digits (d :: p) D). reflexivity. }
  split.
  - unfold handleMinPriceChange. rewrite S. destruct c; reflexivity.
  - cbv zeta. unfold handleMinPriceChange. cbn [minPrice maxPrice].
    rewrite numericValue_app, S. split; [|split; reflexivity].
    unfold numericValue. cbn [filter]. destruct (is_digit ch);
      [reflexivity | apply app_nil_r].
Qed.

Lemma typing_in_the_min_price_field_witness :
  let c := {| interests := []; notableEvents := []; minPrice := lit "25";
              maxPrice := []; age := []; gender := []; relationship := [];
              occasion := lit "Birthday" |} in
  minPrice (handleMinPriceChange (lit "$25x") c) = lit "25"
  /\ minPrice (handleMinPriceChange (lit "$250") c) = lit "250".
Proof.
  intros c.
  assert (D : forallb is_digit (minPrice c) = true) by reflexivity.
  split.
  - exact (proj1 (proj2 (typing_in_the_min_price_field c 120%N D))).
  - exact (proj1 (proj2 (typing_in_the_min_price_field c 48%N D))).
Defined.

Lemma vowel_test (c : code_unit) :
  (c < 128)%N ->
  existsb (jsstring_eqb [ascii_lower c])
    (map lit ["a"; "e"; "i"; "o"; "u"]%string)
  = is_vowel_letter c.
Proof.
  intros L.
  assert (C : In c (map N.of_nat (seq 0 128))).
  { apply in_map_iff. exists (N.to_nat c). split; [lia|].
    apply in_seq. lia. }
  simpl in C.
  repeat (destruct C as [<-|C]; [reflexivity|]). destruct C.
Qed.

(** X21: on a word whose first character after trimming is ASCII, the
    article is [an] exactly when that character is one of the ten vowel
    letters, in either case; on an empty or blank word it is [a]. *)
Theorem article_follows_first_letter (toLowerCase : jsstring -> jsstring)
  (word : jsstring) :
  lowers_ascii toLowerCase ->
  (is_empty (trim word) = true -> getArticle toLowerCase word = lit "a")
  /\ (forall c rest, trim word = c :: rest -> (c < 128)%N ->
        getArticle toLowerCase word
        = if is_vowel_letter c then lit "an" else lit "a").
Proof.
  intros [L0 L]. unfold getArticle. split.
  - intros B. destruct (is_empty word); [reflexivity|].
    destruct (trim word); [|discriminate B]. rewrite L0. reflexivity.
  - intros c rest T C.
    destruct word as [|w word]; [discriminate T|]. cbn [is_empty].
    rewrite T. destruct (L c rest C) as [rest' E].
    change (toLowerCase (c :: rest)) with (toLowerCase (@cons N c rest)).
    rewrite E. cbn [charAt0].
    rewrite (vowel_test c C). reflexivity.
Qed.

Lemma ascii_lowering_lowers : lowers_ascii (map ascii_lower).
Proof. split; [reflexivity|]. intros c rest _. eexists. reflexivity. Qed.

Lemma article_follows_first_letter_witness :
  getArticle (map ascii_lower) (lit " Anniversary") = lit "an"
  /\ getArticle (map ascii_lower) (lit "birthday") = lit "a".
Proof.
  split.
  - exact (proj2 (article_follows_first_letter (map ascii_lower)
                    (lit " Anniversary") ascii_lowering_lowers)
             65%N (lit "nniversary") eq_refl eq_refl).
  - exact (proj2 (article_follows_first_letter (map ascii_lower)
                    (lit "birthday") ascii_lowering_lowers)
             98%N (lit "irthday") eq_refl eq_refl).
Defined.

End FormFacts.

(** ** The prompts a click can send *)

Module PromptMore.
Import JS Prompt JSFacts PromptFacts.

Lemma not_blank_nonempty (s : jsstring) :
  is_empty (trim s) = false -> nonempty s = true.
Proof. destruct s; [discriminate | reflexivity]. Qed.

(** X22: the fetch and message buttons are enabled only on an occasion
    that is not blank, and then both prompts name it: right after the
    opening sentence comes the occasion clause. *)
Theorem sent_prompts_name_the_occasion (c : Criteria) :
  is_empty (trim (occasion c)) = false ->
  (exists rest,
     promptParts c
     = gift_intro :: (lit "The occasion is " ++ occasion c ++ lit ".") :: rest)
  /\ (exists rest,
        messagePromptParts c
        = message_intro :: (lit "The occasion is " ++ occasion c ++ lit ".")
          :: rest).
Proof.
  intros B. apply not_blank_nonempty in B.
  rewrite promptParts_in_order, messagePromptParts_in_order.
  unfold clauses_in_order, spec_order, message_order.
  cbn [filter present]. rewrite B. cbn [map gift_clause message_clause].
  split; eexists; reflexivity.
Qed.

Lemma sent_prompts_name_the_occasion_witness :
  exists rest,
    promptParts Samples.birthday_30
    = gift_intro :: lit "The occasion is Birthday." :: rest.
Proof.
  exact (proj1 (sent_prompts_name_the_occasion Samples.birthday_30 eq_refl)).
Defined.

End PromptMore.
